(** * ThreatMapper: secret-scan ingestion and the lookup reporters

    A shallow embedding of
      - [deepfence_ingester/ingesters/secrets.go]  (module [Ingesters]), and
      - [deepfence_server/reporters/lookup/lookup.go] (module [Lookup]),
    together with the part of the Neo4j store they talk to (module [Neo4j]):
    a property graph, the Cypher clauses the two files send to it, and the
    driver calls (client, session, transaction, run, collect, commit) as
    events of a trace.

    [Samples] and [LookupSamples] hold concrete records, stores and
    requests; [IngestersTerms] and [LookupTerms] the vocabulary of the
    statements; [IngestersSpec] and [LookupSpec] the statements and their
    proofs. *)

From stdpp Require Import gmap strings list fin_maps pretty.
From Stdlib Require Import ZArith.

Set Warnings "-register-all".
Set Default Proof Using "Type".
Open Scope Z_scope.

(** * Go values: what an [interface{}] holds in these two files *)

(** [VFloat] carries a float64 by its 64-bit pattern: no floating point
    arithmetic is done on the Go side.  [VNode] is [dbtype.Node]. *)
Inductive value : Type :=
  | VNil
  | VBool (b : bool)
  | VInt (z : Z)
  | VFloat (bits : Z)
  | VStr (s : string)
  | VTime (t : Z)
  | VList (l : list value)
  | VMap (m : gmap string value)
  | VNode (labels : list string) (props : gmap string value).

(** [map[string]interface{}] *)
Abbreviation pmap := (gmap string value).

(** Go's [error] values, by their message. *)
Definition error : Type := string.

(** * How a Go call ends: in a value, in a returned [error], or in a panic *)

Inductive result (A : Type) : Type :=
  | Ok (a : A)
  | Err (e : error)
  | Panic (msg : string).
Arguments Ok {A} a.
Arguments Err {A} e.
Arguments Panic {A} msg.

(** * The Neo4j store *)

Module Neo4j.

(** ** Driver calls, as seen from outside *)
Inductive event : Type :=
  | EvNeo4jClient
  | EvSession
  | EvBeginTransaction
  | EvRun (query : string) (params : pmap)
  | EvCollect
  | EvCommit
  | EvTxClose
  | EvSessionClose
  | EvLog (msg : string).

(** A store operation is a call that reaches the database through a
    driver handle; resolving the handle and logging are not. *)
Definition is_store_op (e : event) : bool :=
  match e with
  | EvNeo4jClient | EvLog _ => false
  | _ => true
  end.

Definition is_run (e : event) : bool :=
  match e with EvRun _ _ => true | _ => false end.

(** ** The property graph *)
Record node : Type := Node { nlabels : list string; nprops : pmap }.
Record edge : Type := Edge { esrc : nat; etype : string; edst : nat }.
Record graph : Type := Graph { nodes : list node; edges : list edge }.

Definition empty_graph : graph := Graph [] [].

(** ** Cypher expressions *)

(** [v.k]: a property of a map or node, [null] when absent or when [v]
    is not a map. *)
Definition prop (v : value) (k : string) : value :=
  match v with
  | VMap m | VNode _ m => default VNil (m !! k)
  | _ => VNil
  end.

(** [a = b] on property values; anything involving [null], a list or a
    map is not [true]. *)
Definition value_eqb (a b : value) : bool :=
  match a, b with
  | VBool x, VBool y => Bool.eqb x y
  | VInt x, VInt y => Z.eqb x y
  | VFloat x, VFloat y => Z.eqb x y
  | VStr x, VStr y => String.eqb x y
  | VTime x, VTime y => Z.eqb x y
  | _, _ => false
  end.

Definition is_nil (v : value) : bool :=
  match v with VNil => true | _ => false end.

Definition has_label (lbl : string) (n : node) : bool :=
  existsb (String.eqb lbl) (nlabels n).

(** [(x:lbl {k1: v1, ...})] against one node. *)
Definition node_matches (lbl : string) (pat : list (string * value)) (n : node) : bool :=
  has_label lbl n &&
  forallb (fun kv => value_eqb (default VNil (nprops n !! kv.1)) kv.2) pat.

Fixpoint find_nodes_from (i : nat) (lbl : string) (pat : list (string * value))
    (ns : list node) : list nat :=
  match ns with
  | [] => []
  | n :: ns' =>
      if node_matches lbl pat n
      then i :: find_nodes_from (S i) lbl pat ns'
      else find_nodes_from (S i) lbl pat ns'
  end.

(** [MATCH (x:lbl {pat})]: the ids of all matching nodes, in store order. *)
Definition match_nodes (lbl : string) (pat : list (string * value)) (g : graph) : list nat :=
  find_nodes_from 0 lbl pat (nodes g).

(** [MERGE (x:lbl {pat})]: every match when there is one, else a new node
    carrying the label and the pattern's properties.  A [null] in the
    pattern is a query error. *)
Definition merge_node (lbl : string) (pat : list (string * value)) (g : graph)
    : error + (graph * list nat) :=
  if existsb (fun kv => is_nil kv.2) pat
  then inl "Cannot merge node using null property value"%string
  else
    match match_nodes lbl pat g with
    | [] =>
        inr (Graph (nodes g ++ [Node [lbl] (list_to_map pat)]) (edges g),
             [length (nodes g)])
    | ms => inr (g, ms)
    end.

Definition edge_is (a : nat) (ty : string) (b : nat) (e : edge) : bool :=
  Nat.eqb (esrc e) a && String.eqb (etype e) ty && Nat.eqb (edst e) b.

Definition count_edges (a : nat) (ty : string) (b : nat) (g : graph) : nat :=
  length (List.filter (edge_is a ty b) (edges g)).

(** [MERGE (a)-[:ty]->(b)] with both ends bound: one row per existing
    relationship, else the relationship is created and gives one row. *)
Definition merge_edge (a : nat) (ty : string) (b : nat) (g : graph) : graph * nat :=
  match count_edges a ty b g with
  | O => (Graph (nodes g) (edges g ++ [Edge a ty b]), 1%nat)
  | c => (g, c)
  end.

(** [old += new] on property maps: the new value wins, a [null] removes. *)
Definition plus_props (new old : pmap) : pmap :=
  merge (fun n o =>
           match n with
           | Some VNil => None
           | Some v => Some v
           | None => o
           end) new old.

(** [SET x += v] for the node with id [i]. *)
Definition set_plus (i : nat) (v : value) (g : graph) : graph :=
  match v with
  | VMap m | VNode _ m =>
      Graph (alter (fun n => Node (nlabels n) (plus_props m (nprops n))) i (nodes g))
            (edges g)
  | _ => g
  end.

(** A clause that reads and writes: rows go through one at a time, in
    order, each seeing what the rows before it wrote. *)
Fixpoint for_rows {A B : Type} (f : A -> graph -> error + (graph * list B))
    (rows : list A) (g : graph) : error + (graph * list B) :=
  match rows with
  | [] => inr (g, [])
  | r :: rows' =>
      match f r g with
      | inl e => inl e
      | inr (g1, out1) =>
          match for_rows f rows' g1 with
          | inl e => inl e
          | inr (g2, out2) => inr (g2, out1 ++ out2)
          end
      end
  end.

(** ** Counting, by label and by relationship type *)
Definition count_label (lbl : string) (g : graph) : nat :=
  length (List.filter (has_label lbl) (nodes g)).

Definition count_type (ty : string) (g : graph) : nat :=
  length (List.filter (fun e => String.eqb (etype e) ty) (edges g)).

Definition has_edge (a : nat) (ty : string) (b : nat) (g : graph) : bool :=
  existsb (edge_is a ty b) (edges g).

End Neo4j.

(** * deepfence_ingester/ingesters/secrets.go *)

Module Ingesters.
Import Neo4j.
Local Open Scope string_scope.
Local Open Scope list_scope.

(** ** The wire records.  Go's [int] is 64 bits wide; [time.Time] is kept
    as a number. *)
Record SecretScanStatus : Type := {
  StatusTimestamp : Z;
  StatusContainerName : string;
  StatusHostName : string;
  StatusKubernetesClusterName : string;
  StatusMasked : string;
  StatusNodeID : string;
  StatusNodeName : string;
  StatusNodeType : string;
  StatusScanID : string;
  ScanStatus : string
}.

Record SecretMatch : Type := {
  StartingIndex : Z;
  RelativeStartingIndex : Z;
  RelativeEndingIndex : Z;
  FullFilename : string;
  MatchedContent : string
}.

Record SecretRule : Type := {
  ID : Z;
  Name : string;
  Part : string;
  SignatureToMatch : string
}.

Record SecretSeverity : Type := {
  Level : string;
  Score : Z   (* float64, by its bits *)
}.

Record Secret : Type := {
  Timestamp : Z;
  ImageLayerID : string;
  Match : SecretMatch;
  Rule : SecretRule;
  Severity : SecretSeverity;
  ContainerName : string;
  HostName : string;
  KubernetesClusterName : string;
  Masked : string;
  NodeID : string;
  NodeName : string;
  NodeType : string;
  ScanID : string
}.

(** Modelled from the spec: [utils.ToMap] of [deepfence_utils/utils] is not
    among the sources.  It turns a struct into a map keyed by the fields'
    wire names (the [json] tags of the declarations above), a nested
    group becoming a nested map. *)
Class Struct (T : Type) : Type := ToMap : T -> pmap.

#[export] Instance SecretMatch_Struct : Struct SecretMatch := fun m =>
  {[ "starting_index" := VInt (StartingIndex m);
     "relative_starting_index" := VInt (RelativeStartingIndex m);
     "relative_ending_index" := VInt (RelativeEndingIndex m);
     "full_filename" := VStr (FullFilename m);
     "matched_content" := VStr (MatchedContent m) ]}.

#[export] Instance SecretRule_Struct : Struct SecretRule := fun r =>
  {[ "id" := VInt (ID r);
     "name" := VStr (Name r);
     "part" := VStr (Part r);
     "signature_to_match" := VStr (SignatureToMatch r) ]}.

#[export] Instance SecretSeverity_Struct : Struct SecretSeverity := fun s =>
  {[ "level" := VStr (Level s);
     "score" := VFloat (Score s) ]}.

#[export] Instance Secret_Struct : Struct Secret := fun i =>
  {[ "@timestamp" := VTime (Timestamp i);
     "ImageLayerId" := VStr (ImageLayerID i);
     "Match" := VMap (ToMap (Match i));
     "Rule" := VMap (ToMap (Rule i));
     "Severity" := VMap (ToMap (Severity i));
     "container_name" := VStr (ContainerName i);
     "host_name" := VStr (HostName i);
     "kubernetes_cluster_name" := VStr (KubernetesClusterName i);
     "masked" := VStr (Masked i);
     "node_id" := VStr (NodeID i);
     "node_name" := VStr (NodeName i);
     "node_type" := VStr (NodeType i);
     "scan_id" := VStr (ScanID i) ]}.

#[export] Instance SecretScanStatus_Struct : Struct SecretScanStatus := fun i =>
  {[ "@timestamp" := VTime (StatusTimestamp i);
     "container_name" := VStr (StatusContainerName i);
     "host_name" := VStr (StatusHostName i);
     "kubernetes_cluster_name" := VStr (StatusKubernetesClusterName i);
     "masked" := VStr (StatusMasked i);
     "node_id" := VStr (StatusNodeID i);
     "node_name" := VStr (StatusNodeName i);
     "node_type" := VStr (StatusNodeType i);
     "scan_id" := VStr (StatusScanID i);
     "scan_status" := VStr (ScanStatus i) ]}.

(** [for k, v := range src { dst[k] = v }] *)
Definition copy_into (src dst : pmap) : pmap :=
  map_fold (fun k v acc => <[k:=v]> acc) dst src.

(** [fmt.Sprintf("%v:%v", id, host)] for an [int] and a [string]. *)
Definition Sprintf_v_colon_v (id : Z) (host : string) : string :=
  pretty id +:+ ":" +:+ host.

Definition statusesToMaps (data : list SecretScanStatus) : list pmap :=
  fold_left (fun statuses i => statuses ++ [ToMap i]) data [].

(** The body of the loop in [secretsToMaps]: the batch row of one secret. *)
Definition secret_row (i : Secret) : gmap string pmap :=
  let secret := ToMap i in
  let secret := delete "Severity" secret in
  let secret := delete "Rule" secret in
  let secret := delete "Match" secret in
  let secret := copy_into (ToMap (Severity i)) secret in
  let secret := copy_into (ToMap (Match i)) secret in
  let secret :=
    <["rule_id" := VStr (Sprintf_v_colon_v (ID (Rule i)) (HostName i))]> secret in
  {[ "Rule" := ToMap (Rule i); "Secret" := secret ]}.

Definition secretsToMaps (data : list Secret) : list (gmap string pmap) :=
  fold_left (fun secrets i => secrets ++ [secret_row i]) data [].

(** The [$batch] parameter as the driver sends it. *)
Definition batch_of_maps (rows : list pmap) : value := VList (VMap <$> rows).

Definition batch_of_secrets (rows : list (gmap string pmap)) : value :=
  VList ((fun row => VMap (VMap <$> row)) <$> rows).

(** ** The two statements *)

Definition secrets_query : string :=
  "UNWIND $batch as row WITH row.Rule as rule, row.Secret as secret MERGE (r:Rule{node_id:rule.id}) SET r+=rule WITH secret as row, r MERGE (n:Secret{node_id:row.rule_id}) MERGE (n)-[:IS]->(r) MERGE (m:SecretScan{node_id: row.scan_id, host_name: row.host_name, time_stamp: timestamp()}) WITH n, m, row MATCH (l:Node{node_id: row.host_name}) MERGE (m) -[:DETECTED]-> (n) MERGE (m) -[:SCANNED]-> (l) SET n+= row".

Definition status_query : string :=
  "UNWIND $batch as row MERGE (n:SecretScan{node_id: row.scan_id}) SET n.status = row.scan_status".

Definition unwind (v : value) : list value :=
  match v with VList l => l | _ => [] end.

Definition then_ {A B : Type} (x : error + A) (k : A -> error + B) : error + B :=
  match x with inl e => inl e | inr a => k a end.

(** What [secrets_query] does to the graph, clause by clause.  [now] is
    the value of [timestamp()], the same for the whole statement. *)
Definition run_secrets_query (now : Z) (params : pmap) (g : graph) : error + graph :=
  (* UNWIND $batch as row WITH row.Rule as rule, row.Secret as secret *)
  let t0 := (fun row => (prop row "Rule", prop row "Secret"))
              <$> unwind (default VNil (params !! "batch")) in
  (* MERGE (r:Rule{node_id:rule.id}) *)
  then_ (for_rows (fun '(rule, secret) g =>
           then_ (merge_node "Rule" [("node_id", prop rule "id")] g)
             (fun '(g, rs) => inr (g, (fun r => (rule, secret, r)) <$> rs)))
         t0 g)
  (fun '(g, t1) =>
  (* SET r+=rule *)
  let g := fold_left (fun g '(rule, _, r) => set_plus r rule g) t1 g in
  (* WITH secret as row, r *)
  let t2 := (fun '(_, secret, r) => (secret, r)) <$> t1 in
  (* MERGE (n:Secret{node_id:row.rule_id}) *)
  then_ (for_rows (fun '(row, r) g =>
           then_ (merge_node "Secret" [("node_id", prop row "rule_id")] g)
             (fun '(g, ns) => inr (g, (fun n => (row, r, n)) <$> ns)))
         t2 g)
  (fun '(g, t3) =>
  (* MERGE (n)-[:IS]->(r) *)
  then_ (for_rows (fun '(row, r, n) g =>
           let '(g, c) := merge_edge n "IS" r g in
           inr (g, replicate c (row, r, n)))
         t3 g)
  (fun '(g, t4) =>
  (* MERGE (m:SecretScan{node_id: row.scan_id, host_name: row.host_name,
                         time_stamp: timestamp()}) *)
  then_ (for_rows (fun '(row, r, n) g =>
           then_ (merge_node "SecretScan"
                    [("node_id", prop row "scan_id");
                     ("host_name", prop row "host_name");
                     ("time_stamp", VInt now)] g)
             (fun '(g, ms) => inr (g, (fun m => (n, m, row)) <$> ms)))
         t4 g)
  (fun '(g, t5) =>
  (* WITH n, m, row MATCH (l:Node{node_id: row.host_name}) *)
  let t6 := t5 ≫= (fun '(n, m, row) =>
              (fun l => (n, m, row, l))
                <$> match_nodes "Node" [("node_id", prop row "host_name")] g) in
  (* MERGE (m) -[:DETECTED]-> (n) *)
  then_ (for_rows (fun '(n, m, row, l) g =>
           let '(g, c) := merge_edge m "DETECTED" n g in
           inr (g, replicate c (n, m, row, l)))
         t6 g)
  (fun '(g, t7) =>
  (* MERGE (m) -[:SCANNED]-> (l) *)
  then_ (for_rows (fun '(n, m, row, l) g =>
           let '(g, c) := merge_edge m "SCANNED" l g in
           inr (g, replicate c (n, m, row, l)))
         t7 g)
  (fun '(g, t8) =>
  (* SET n+= row *)
  inr (fold_left (fun g '(n, _, row, _) => set_plus n row g) t8 g))))))).

(** [SET x.k = v] *)
Definition set_prop (i : nat) (k : string) (v : value) (g : graph) : graph :=
  Graph (alter (fun n => Node (nlabels n)
                  (if is_nil v then delete k (nprops n) else <[k:=v]> (nprops n)))
               i (nodes g))
        (edges g).

Definition run_status_query (params : pmap) (g : graph) : error + graph :=
  (* UNWIND $batch as row *)
  let t0 := unwind (default VNil (params !! "batch")) in
  (* MERGE (n:SecretScan{node_id: row.scan_id}) *)
  then_ (for_rows (fun row g =>
           then_ (merge_node "SecretScan" [("node_id", prop row "scan_id")] g)
             (fun '(g, ns) => inr (g, (fun n => (row, n)) <$> ns)))
         t0 g)
  (fun '(g, t1) =>
  (* SET n.status = row.scan_status *)
  inr (fold_left (fun g '(row, n) => set_prop n "status" (prop row "scan_status") g) t1 g)).

(** ** The driver *)

(** What the surroundings decide: whether the namespace has a client,
    whether a transaction can be opened, run and committed, and the
    clock. *)
Record Env : Type := {
  client_err : string -> option error;
  begin_err : option error;
  run_err : option error;
  commit_err : option error;
  clock : Z
}.

(** The namespace's database and the calls made so far. *)
Record world : Type := World { db : graph; trace : list event }.

(** An ingester threads the world.  [x <- c ;; k] is the Go idiom
    [x, err := c; if err != nil { return err }]. *)
Definition M (A : Type) : Type := world -> result A * world.

Definition ret {A} (a : A) : M A := fun w => (Ok a, w).

Definition fail {A} (e : error) : M A := fun w => (Err e, w).

Definition bind {A B} (c : M A) (k : A -> M B) : M B :=
  fun w =>
    match c w with
    | (Ok a, w') => k a w'
    | (Err e, w') => (Err e, w')
    | (Panic msg, w') => (Panic msg, w')
    end.

(** [v, err := c] where the caller looks at [err] itself. *)
Definition attempt {A} (c : M A) : M (error + A) :=
  fun w =>
    match c w with
    | (Ok a, w') => (Ok (inr a), w')
    | (Err e, w') => (Ok (inl e), w')
    | (Panic msg, w') => (Panic msg, w')
    end.

(** [defer d]: [d] runs when the body is left, whichever way. *)
Definition defer {A} (d : world -> world) (body : M A) : M A :=
  fun w => let '(r, w') := body w in (r, d w').

Declare Scope ingest_scope.
Local Notation "x <- c ;; k" := (bind c (fun x => k))
  (at level 100, c at next level, right associativity) : ingest_scope.
Local Notation "c ;;; k" := (bind c (fun _ => k))
  (at level 100, right associativity) : ingest_scope.
Local Open Scope ingest_scope.

Definition emit (e : event) : M unit :=
  fun w => (Ok tt, World (db w) (trace w ++ [e])).

Definition or_fail (e : option error) : M unit :=
  match e with Some e => fail e | None => ret tt end.

(** [directory.Neo4jClient(ctx)] for the namespace in [ctx]. *)
Definition Neo4jClient (env : Env) (ns : string) : M unit :=
  emit EvNeo4jClient ;;; or_fail (client_err env ns).

(** [driver.NewSession(...)]: returns no error. *)
Definition NewSession : M unit := emit EvSession.

Definition close_session (w : world) : world :=
  World (db w) (trace w ++ [EvSessionClose]).

(** [session.BeginTransaction()]: the transaction works on its own copy
    of the database. *)
Definition BeginTransaction (env : Env) : M graph :=
  emit EvBeginTransaction ;;; or_fail (begin_err env) ;;;
  fun w => (Ok (db w), w).

(** [tx.Close()]: what was not committed is dropped. *)
Definition close_tx (w : world) : world :=
  World (db w) (trace w ++ [EvTxClose]).

(** [tx.Run(query, params)] *)
Definition Run (env : Env) (sem : pmap -> graph -> error + graph)
    (query : string) (params : pmap) (tx : graph) : M graph :=
  emit (EvRun query params) ;;; or_fail (run_err env) ;;;
  match sem params tx with
  | inl e => fail e
  | inr tx' => ret tx'
  end.

(** [tx.Commit()] *)
Definition Commit (env : Env) (tx : graph) : M unit :=
  emit EvCommit ;;; or_fail (commit_err env) ;;;
  fun w => (Ok tt, World tx (trace w)).

Definition CommitFuncSecrets (env : Env) (ns : string) (data : list Secret) : M unit :=
  Neo4jClient env ns ;;;
  NewSession ;;;
  defer close_session (
    tx <- BeginTransaction env ;;
    defer close_tx (
      tx <- Run env (run_secrets_query (clock env)) secrets_query
              {[ "batch" := batch_of_secrets (secretsToMaps data) ]} tx ;;
      Commit env tx)).

Definition CommitFuncSecretScanStatus (env : Env) (ns : string)
    (data : list SecretScanStatus) : M unit :=
  driver <- attempt (Neo4jClient env ns) ;;
  if (length data =? 0)%nat then ret tt
  else
    match driver with
    | inl err => fail err
    | inr _ =>
        NewSession ;;;
        defer close_session (
          tx <- BeginTransaction env ;;
          defer close_tx (
            tx <- Run env run_status_query status_query
                    {[ "batch" := batch_of_maps (statusesToMaps data) ]} tx ;;
            Commit env tx))
    end.

End Ingesters.

(** * deepfence_server/reporters/lookup/lookup.go *)

Module Lookup.
Import Neo4j.
Local Open Scope string_scope.
Local Open Scope list_scope.

(** ** The reporter monad

    The reporters only read the store, so a call is what it ends in and
    the driver calls it made, in order.  [x <- c ;; k] is the Go idiom
    [x, err := c; if err != nil { return nil, err }]. *)
Definition M (A : Type) : Type := (result A * list event)%type.

Definition ret {A} (a : A) : M A := (Ok a, []).

Definition fail {A} (e : error) : M A := (Err e, []).

Definition panic {A} (msg : string) : M A := (Panic msg, []).

Definition emit (e : event) : M unit := (Ok tt, [e]).

Definition bind {A B} (c : M A) (k : A -> M B) : M B :=
  match c with
  | (Ok a, tr) => let '(r, tr') := k a in (r, tr ++ tr')
  | (Err e, tr) => (Err e, tr)
  | (Panic msg, tr) => (Panic msg, tr)
  end.

(** [v, err := c] where the caller looks at [err] itself. *)
Definition attempt {A} (c : M A) : M (error + A) :=
  match c with
  | (Ok a, tr) => (Ok (inr a), tr)
  | (Err e, tr) => (Ok (inl e), tr)
  | (Panic msg, tr) => (Panic msg, tr)
  end.

(** [defer close(); body]: the close call is made when the body is left,
    whichever way. *)
Definition defer {A} (close : event) (body : M A) : M A :=
  let '(r, tr) := body in (r, tr ++ [close]).

Declare Scope report_scope.
Local Notation "x <- c ;; k" := (bind c (fun x => k))
  (at level 100, c at next level, right associativity) : report_scope.
Local Notation "c ;;; k" := (bind c (fun _ => k))
  (at level 100, right associativity) : report_scope.
Local Open Scope report_scope.

(** [for i := range xs { ...; xs[i].F = v }], left at the first [return]. *)
Fixpoint forRange {A} (f : A -> M A) (xs : list A) : M (list A) :=
  match xs with
  | [] => ret []
  | x :: xs' => y <- f x ;; ys <- forRange f xs' ;; ret (y :: ys)
  end.

(** ** The request *)

(** Modelled from the spec: [model.FetchWindow] is declared outside the
    sources at hand; the spec gives it an offset and a size. *)
Record FetchWindow : Type := { Offset : Z; Size : Z }.

Record LookupFilter : Type := {
  InFieldFilter : list string;   (* fields to return *)
  NodeIds : list string;         (* nodes to return *)
  Window : FetchWindow
}.

(** ** The typed entities

    Modelled from the spec: the [model] package is not among the sources.
    An entity is a typed view over a node's property bag: its id, the
    scalar properties, and one slice per relation of the enrichment
    table.  A slice is [None] while it is Go's [nil] (never set). *)
Record Process : Type := {
  Process_ID : string;
  Process_fields : pmap
}.

Record Pod : Type := {
  Pod_ID : string;
  Pod_fields : pmap
}.

Inductive Container : Type :=
  mkContainer (id : string) (fields : pmap)
    (processes : option (list Process)) (image : ContainerImage)
with ContainerImage : Type :=
  mkContainerImage (id : string) (fields : pmap)
    (containers : option (list Container)).

Definition Container_ID (c : Container) : string :=
  let 'mkContainer id _ _ _ := c in id.
Definition Container_fields (c : Container) : pmap :=
  let 'mkContainer _ f _ _ := c in f.
Definition Container_Processes (c : Container) : option (list Process) :=
  let 'mkContainer _ _ p _ := c in p.
Definition Container_ContainerImage (c : Container) : ContainerImage :=
  let 'mkContainer _ _ _ i := c in i.

Definition ContainerImage_ID (c : ContainerImage) : string :=
  let 'mkContainerImage id _ _ := c in id.
Definition ContainerImage_fields (c : ContainerImage) : pmap :=
  let 'mkContainerImage _ f _ := c in f.
Definition ContainerImage_Containers (c : ContainerImage) : option (list Container) :=
  let 'mkContainerImage _ _ cs := c in cs.

Record Host : Type := mkHost {
  Host_ID : string;
  Host_fields : pmap;
  Host_Containers : option (list Container);
  Host_Processes : option (list Process);
  Host_Pods : option (list Pod);
  Host_ContainerImages : option (list ContainerImage)
}.

Record KubernetesCluster : Type := mkKubernetesCluster {
  KubernetesCluster_ID : string;
  KubernetesCluster_fields : pmap;
  KubernetesCluster_Hosts : option (list Host)
}.

Record CloudResource : Type := {
  CloudResource_ID : string;
  CloudResource_fields : pmap
}.

Record RegistryAccount : Type := mkRegistryAccount {
  RegistryAccount_ID : string;
  RegistryAccount_fields : pmap;
  RegistryAccount_ContainerImages : option (list ContainerImage)
}.

(** Field assignments [x.F = v]. *)
Definition set_Host_Processes (v : list Process) (h : Host) : Host :=
  mkHost (Host_ID h) (Host_fields h) (Host_Containers h) (Some v)
         (Host_Pods h) (Host_ContainerImages h).
Definition set_Host_Containers (v : list Container) (h : Host) : Host :=
  mkHost (Host_ID h) (Host_fields h) (Some v) (Host_Processes h)
         (Host_Pods h) (Host_ContainerImages h).
Definition set_Host_ContainerImages (v : list ContainerImage) (h : Host) : Host :=
  mkHost (Host_ID h) (Host_fields h) (Host_Containers h) (Host_Processes h)
         (Host_Pods h) (Some v).
Definition set_Host_Pods (v : list Pod) (h : Host) : Host :=
  mkHost (Host_ID h) (Host_fields h) (Host_Containers h) (Host_Processes h)
         (Some v) (Host_ContainerImages h).
Definition set_Container_Processes (v : list Process) (c : Container) : Container :=
  mkContainer (Container_ID c) (Container_fields c) (Some v)
              (Container_ContainerImage c).
Definition set_Container_ContainerImage (v : ContainerImage) (c : Container) : Container :=
  mkContainer (Container_ID c) (Container_fields c) (Container_Processes c) v.
Definition set_ContainerImage_Containers (v : list Container) (c : ContainerImage)
    : ContainerImage :=
  mkContainerImage (ContainerImage_ID c) (ContainerImage_fields c) (Some v).
Definition set_KubernetesCluster_Hosts (v : list Host) (c : KubernetesCluster)
    : KubernetesCluster :=
  mkKubernetesCluster (KubernetesCluster_ID c) (KubernetesCluster_fields c) (Some v).
Definition set_RegistryAccount_ContainerImages (v : list ContainerImage)
    (r : RegistryAccount) : RegistryAccount :=
  mkRegistryAccount (RegistryAccount_ID r) (RegistryAccount_fields r) (Some v).

(** [utils.FromMap(m, &node)] on a zero [node] (an SDK helper): fields
    are filled by name.  The id is the string at ["node_id"]; a node's
    properties are top level only (lookup.go says so where it declares
    [LookupFilter]), so no relation slice is ever filled from the map. *)
Class Decodable (T : Type) : Type := FromMap : pmap -> T.

(** [reporters.Cypherable]: an entity type that knows its label. *)
Class Cypherable (T : Type) : Type := {
  NodeType : string;
  Cypherable_Decodable :: Decodable T
}.

Definition id_of (m : pmap) : string :=
  match m !! "node_id" with
  | Some (VStr s) => s
  | _ => ""
  end.

#[export] Instance Process_Decodable : Decodable Process := fun m =>
  {| Process_ID := id_of m; Process_fields := m |}.
#[export] Instance Pod_Decodable : Decodable Pod := fun m =>
  {| Pod_ID := id_of m; Pod_fields := m |}.
#[export] Instance ContainerImage_Decodable : Decodable ContainerImage := fun m =>
  mkContainerImage (id_of m) m None.
#[export] Instance Container_Decodable : Decodable Container := fun m =>
  mkContainer (id_of m) m None (mkContainerImage "" ∅ None).
#[export] Instance Host_Decodable : Decodable Host := fun m =>
  mkHost (id_of m) m None None None None.
#[export] Instance KubernetesCluster_Decodable : Decodable KubernetesCluster := fun m =>
  mkKubernetesCluster (id_of m) m None.
#[export] Instance CloudResource_Decodable : Decodable CloudResource := fun m =>
  {| CloudResource_ID := id_of m; CloudResource_fields := m |}.
#[export] Instance RegistryAccount_Decodable : Decodable RegistryAccount := fun m =>
  mkRegistryAccount (id_of m) m None.

(** Modelled from the spec: the [NodeType()] methods belong to the absent
    [model] package; the labels are the ones the relation queries below
    use for each entity type. *)
#[export] Instance Process_Cypherable : Cypherable Process :=
  {| NodeType := "Process" |}.
#[export] Instance Pod_Cypherable : Cypherable Pod :=
  {| NodeType := "Pod" |}.
#[export] Instance ContainerImage_Cypherable : Cypherable ContainerImage :=
  {| NodeType := "ContainerImage" |}.
#[export] Instance Container_Cypherable : Cypherable Container :=
  {| NodeType := "Container" |}.
#[export] Instance Host_Cypherable : Cypherable Host :=
  {| NodeType := "Node" |}.
#[export] Instance KubernetesCluster_Cypherable : Cypherable KubernetesCluster :=
  {| NodeType := "KubernetesCluster" |}.
#[export] Instance CloudResource_Cypherable : Cypherable CloudResource :=
  {| NodeType := "CloudResource" |}.
#[export] Instance RegistryAccount_Cypherable : Cypherable RegistryAccount :=
  {| NodeType := "RegistryAccount" |}.

(** [utils.InSlice] (an SDK helper): membership in a slice. *)
Definition InSlice (e : string) (s : list string) : bool :=
  existsb (String.eqb e) s.

(** Modelled from the spec: [reporters.FieldFilterCypher] is declared in
    [deepfence_server/reporters], outside the sources at hand.  It
    projects the whole node when no field is asked for, and otherwise
    exactly the requested fields, in the requested order. *)
Definition FieldFilterCypher (node_name : string) (fields : list string) : string :=
  match fields with
  | [] => node_name
  | _ => String.concat "," ((fun f => node_name +:+ "." +:+ f) <$> fields)
  end.

(** ** Query results *)

(** [neo4j.Record] *)
Record record : Type := { Keys : list string; Values : list value }.

Fixpoint get_from (keys : list string) (vals : list value) (key : string)
    : value * bool :=
  match keys, vals with
  | k :: keys', v :: vals' =>
      if String.eqb key k then (v, true) else get_from keys' vals' key
  | k :: keys', [] =>
      if String.eqb key k then (VNil, true) else get_from keys' [] key
  | [], _ => (VNil, false)
  end.

(** [rec.Get(key)] *)
Definition Get (rec : record) (key : string) : value * bool :=
  get_from (Keys rec) (Values rec) key.

(** What the store does with one [tx.Run] followed by [r.Collect()]. *)
Inductive run_outcome : Type :=
  | RunFails (e : error)
  | CollectFails (e : error)
  | Records (recs : list record).

(** The store as the reporters see it: whether a client, a session and a
    transaction can be had, and the answer to each query. *)
Record Store : Type := {
  client_err : option error;
  session_err : option error;
  begin_err : option error;
  answer : string -> pmap -> run_outcome
}.

(** ** Raw query text: a Go raw string whose lines start with a newline
    and [indent] tabs. *)
Definition NL : string := String (Ascii.ascii_of_nat 10) EmptyString.
Definition TAB : string := String (Ascii.ascii_of_nat 9) EmptyString.

Definition raw_lines (indent : nat) (ls : list string) : string :=
  String.concat "" ((fun l => NL +:+ String.concat "" (replicate indent TAB) +:+ l) <$> ls).

Definition or_fail (e : option error) : M unit :=
  match e with Some e => fail e | None => ret tt end.

Section Reporters.
Context (store : Store).

Definition Neo4jClient : M unit := emit EvNeo4jClient ;;; or_fail (client_err store).
Definition Session : M unit := emit EvSession ;;; or_fail (session_err store).
Definition BeginTransaction : M unit :=
  emit EvBeginTransaction ;;; or_fail (begin_err store).

(** [tx.Run(query, params)] *)
Definition Run (query : string) (params : pmap) : M run_outcome :=
  emit (EvRun query params) ;;;
  match answer store query params with
  | RunFails e => fail e
  | r => ret r
  end.

(** [r.Collect()] *)
Definition Collect (r : run_outcome) : M (list record) :=
  emit EvCollect ;;;
  match r with
  | RunFails e | CollectFails e => fail e
  | Records recs => ret recs
  end.

Definition ids_param (ids : list string) : pmap :=
  {[ "ids" := VList (VStr <$> ids) ]}.

(** *** getGenericDirectNodeReport *)

(** [for i := range fields { node_map[fields[i]] = rec.Values[i] }] *)
Fixpoint positional (fields : list string) (i : nat) (vals : list value)
    (node_map : pmap) : result pmap :=
  match fields with
  | [] => Ok node_map
  | f :: fields' =>
      match vals !! i with
      | Some v => positional fields' (S i) vals (<[f:=v]> node_map)
      | None => Panic "index out of range"
      end
  end.

(** The primary node's map; [None] is the "Missing neo4j entry" case
    that skips the record. *)
Definition primary_map (fields : list string) (rec : record) : result (option pmap) :=
  if (length fields =? 0)%nat then
    let '(data, has) := Get rec "n" in
    if negb has then Ok None
    else match data with
         | VNode _ props => Ok (Some props)
         | _ => Ok None
         end
  else
    match positional fields 0 (Values rec) ∅ with
    | Ok m => Ok (Some m)
    | Err e => Err e
    | Panic msg => Panic msg
    end.

(** The classification node's properties, laid over the map. *)
Definition overlay (is_node : value) (node_map : pmap) : result pmap :=
  match is_node with
  | VNil => Ok node_map
  | VNode _ props =>
      Ok (map_fold (fun k v acc => if String.eqb k "node_id" then acc else <[k:=v]> acc)
            node_map props)
  | _ => Panic "interface conversion: not a dbtype.Node"
  end.

(** The map handed to [utils.FromMap] for one record. *)
Definition record_map (fields : list string) (rec : record) : result (option pmap) :=
  match primary_map fields rec with
  | Ok (Some node_map) =>
      match overlay (Get rec "e").1 node_map with
      | Ok m => Ok (Some m)
      | Err e => Err e
      | Panic msg => Panic msg
      end
  | r => r
  end.

Fixpoint map_records {T} `{Decodable T} (fields : list string)
    (recs : list record) (res : list T) : M (list T) :=
  match recs with
  | [] => ret res
  | rec :: recs' =>
      match record_map fields rec with
      | Ok None =>
          emit (EvLog "Missing neo4j entry") ;;; map_records fields recs' res
      | Ok (Some node_map) => map_records fields recs' (res ++ [FromMap node_map])
      | Err e => fail e
      | Panic msg => panic msg
      end
  end.

Definition direct_query (label : string) (filter : LookupFilter) : string :=
  if (length (NodeIds filter) =? 0)%nat then
    raw_lines 3
      [ "MATCH (n:" +:+ label +:+ ")";
        "OPTIONAL MATCH (n) -[:IS]-> (e)";
        "RETURN " +:+ FieldFilterCypher "n" (InFieldFilter filter) +:+ ", e" ]
  else
    raw_lines 3
      [ "MATCH (n:" +:+ label +:+ ")";
        "WHERE n.node_id IN $ids";
        "OPTIONAL MATCH (n) -[:IS]-> (e)";
        "RETURN " +:+ FieldFilterCypher "n" (InFieldFilter filter) +:+ ", e" ].

Definition getGenericDirectNodeReport (T : Type) `{Cypherable T}
    (filter : LookupFilter) : M (list T) :=
  Neo4jClient ;;;
  Session ;;;
  defer EvSessionClose (
    BeginTransaction ;;;
    defer EvTxClose (
      let query := direct_query (NodeType (T:=T)) filter in
      emit (EvLog ("query: " +:+ query)) ;;;
      r <- Run query (ids_param (NodeIds filter)) ;;
      recs <- Collect r ;;
      map_records (InFieldFilter filter) recs [])).

(** *** getIndirectFromIDs *)

Fixpoint decode_m {T} `{Decodable T} (recs : list record) (res : list T) : M (list T) :=
  match recs with
  | [] => ret res
  | rec :: recs' =>
      let '(data, has) := Get rec "m" in
      if negb has then
        emit (EvLog "Missing neo4j entry") ;;; decode_m recs' res
      else
        match data with
        | VNode _ props => decode_m recs' (res ++ [FromMap props])
        | _ => emit (EvLog "Missing neo4j entry") ;;; decode_m recs' res
        end
  end.

Definition getIndirectFromIDs (T : Type) `{Decodable T}
    (query : string) (ids : list string) : M (list T) :=
  Neo4jClient ;;;
  Session ;;;
  defer EvSessionClose (
    BeginTransaction ;;;
    defer EvTxClose (
      r <- Run query (ids_param ids) ;;
      recs <- Collect r ;;
      decode_m recs [])).

(** *** The one-hop relation queries *)

Definition host_containers_query : string :=
  raw_lines 2 [ "MATCH (n:Node) -[:HOSTS]-> (m:Container)";
                "WHERE n.node_id IN $ids"; "RETURN m" ].
Definition host_pods_query : string :=
  raw_lines 2 [ "MATCH (n:Node) -[:HOSTS]-> (m:Pod)";
                "WHERE n.node_id IN $ids"; "RETURN m" ].
Definition host_container_images_query : string :=
  raw_lines 2 [ "MATCH (n:Node) -[:HOSTS]-> (m:ContainerImage)";
                "WHERE n.node_id IN $ids"; "RETURN m" ].
Definition registry_images_query : string :=
  raw_lines 2 [ "MATCH (n:RegistryAccount) -[:HOSTS]-> (m:ContainerImage)";
                "WHERE n.node_id IN $ids"; "RETURN m" ].
Definition host_processes_query : string :=
  raw_lines 2 [ "MATCH (n:Node) -[:HOSTS]-> (m:Process)";
                "WHERE n.node_id IN $ids"; "RETURN m" ].
Definition container_processes_query : string :=
  raw_lines 2 [ "MATCH (n:Container) -[:HOSTS]-> (m:Process)";
                "WHERE n.node_id IN $ids"; "RETURN m" ].
Definition container_container_images_query : string :=
  raw_lines 2 [ "MATCH (n:Container) ";
                "WHERE n.node_id IN $ids";
                "MATCH (m:ContainerImage{node_id:n.docker_image_id})";
                "RETURN m" ].
Definition container_image_containers_query : string :=
  raw_lines 2 [ "MATCH (n:ContainerImage)";
                "WHERE n.node_id in $ids"; "RETURN n" ].
Definition cluster_hosts_query : string :=
  raw_lines 2 [ "MATCH (m:KubernetesCluster) -[:INSTANCIATE]-> (n:Node)";
                "WHERE m.node_id IN $ids"; "RETURN n" ].

Definition getHostContainers (host : Host) : M (list Container) :=
  containers <- getIndirectFromIDs Container host_containers_query [Host_ID host] ;;
  ret containers.

Definition getHostPods (host : Host) : M (list Pod) :=
  getIndirectFromIDs Pod host_pods_query [Host_ID host].

Definition getHostContainerImages (host : Host) : M (list ContainerImage) :=
  getIndirectFromIDs ContainerImage host_container_images_query [Host_ID host].

Definition getRegistryImages (registry : RegistryAccount) : M (list ContainerImage) :=
  getIndirectFromIDs ContainerImage registry_images_query [RegistryAccount_ID registry].

Definition getHostProcesses (host : Host) : M (list Process) :=
  getIndirectFromIDs Process host_processes_query [Host_ID host].

Definition getContainerProcesses (container : Container) : M (list Process) :=
  getIndirectFromIDs Process container_processes_query [Container_ID container].

Definition getContainerContainerImages (container : Container) : M (list ContainerImage) :=
  getIndirectFromIDs ContainerImage container_container_images_query
    [Container_ID container].

Definition getContainerImageContainers (image : ContainerImage) : M (list Container) :=
  getIndirectFromIDs Container container_image_containers_query
    [ContainerImage_ID image].

Definition getClusterHosts (cluster : KubernetesCluster) : M (list Host) :=
  getIndirectFromIDs Host cluster_hosts_query [KubernetesCluster_ID cluster].

(** *** The reports *)

(** [if flag { v, err := get(x); if err == nil { x.F = v } }] *)
Definition enrich {A B} (flag : bool) (get : A -> M B) (set : B -> A -> A) (x : A) : M A :=
  if flag then
    r <- attempt (get x) ;;
    match r with
    | inr v => ret (set v x)
    | inl _ => ret x
    end
  else ret x.

Definition GetHostsReport (filter : LookupFilter) : M (list Host) :=
  hosts <- getGenericDirectNodeReport Host filter ;;
  let '(getProcesses, getContainerImages, getContainers, getPods) :=
    if (length (InFieldFilter filter) =? 0)%nat then (true, true, true, true)
    else (InSlice "processes" (InFieldFilter filter),
          InSlice "container_images" (InFieldFilter filter),
          InSlice "containers" (InFieldFilter filter),
          InSlice "pods" (InFieldFilter filter)) in
  forRange (fun host =>
      host <- enrich getProcesses getHostProcesses set_Host_Processes host ;;
      host <- enrich getContainers getHostContainers set_Host_Containers host ;;
      host <- enrich getContainerImages getHostContainerImages
                set_Host_ContainerImages host ;;
      enrich getPods getHostPods set_Host_Pods host)
    hosts.

Definition GetContainersReport (filter : LookupFilter) : M (list Container) :=
  containers <- getGenericDirectNodeReport Container filter ;;
  let '(getProcesses, getContainerImages) :=
    if (length (InFieldFilter filter) =? 0)%nat then (true, true)
    else (InSlice "processes" (InFieldFilter filter),
          InSlice "image" (InFieldFilter filter)) in
  forRange (fun container =>
      container <- enrich getProcesses getContainerProcesses
                     set_Container_Processes container ;;
      enrich getContainerImages getContainerContainerImages
        (fun images c =>
           match images with
           | image :: _ => set_Container_ContainerImage image c
           | [] => c
           end)
        container)
    containers.

Definition GetProcessesReport (filter : LookupFilter) : M (list Process) :=
  getGenericDirectNodeReport Process filter.

Definition GetPodsReport (filter : LookupFilter) : M (list Pod) :=
  getGenericDirectNodeReport Pod filter.

Definition GetContainerImagesReport (filter : LookupFilter) : M (list ContainerImage) :=
  images <- getGenericDirectNodeReport ContainerImage filter ;;
  let getContainers :=
    if (length (InFieldFilter filter) =? 0)%nat then true
    else InSlice "image" (InFieldFilter filter) in
  forRange (enrich getContainers getContainerImageContainers
              set_ContainerImage_Containers)
    images.

Definition GetKubernetesClustersReport (filter : LookupFilter)
    : M (list KubernetesCluster) :=
  clusters <- getGenericDirectNodeReport KubernetesCluster filter ;;
  let getHosts :=
    if (length (InFieldFilter filter) =? 0)%nat then true
    else InSlice "hosts" (InFieldFilter filter) in
  forRange (enrich getHosts getClusterHosts set_KubernetesCluster_Hosts) clusters.

Definition GetCloudResourcesReport (filter : LookupFilter) : M (list CloudResource) :=
  getGenericDirectNodeReport CloudResource filter.

Definition GetRegistryAccountReport (filter : LookupFilter) : M (list RegistryAccount) :=
  registry <- getGenericDirectNodeReport RegistryAccount filter ;;
  forRange (fun r =>
      container_images <- getRegistryImages r ;;
      ret (set_RegistryAccount_ContainerImages container_images r))
    registry.

End Reporters.

End Lookup.

(** * Sample data *)

Module Samples.
Import Neo4j.
Local Open Scope string_scope.
Local Open Scope list_scope.

(** One secret: rule 1 matched on host ["h1"] during scan ["scan1"]. *)
Definition secret1 : Ingesters.Secret := {|
  Ingesters.Timestamp := 1700000000;
  Ingesters.ImageLayerID := "";
  Ingesters.Match := {|
    Ingesters.StartingIndex := 10;
    Ingesters.RelativeStartingIndex := 2;
    Ingesters.RelativeEndingIndex := 22;
    Ingesters.FullFilename := "/root/.aws/credentials";
    Ingesters.MatchedContent := "AKIA" |};
  Ingesters.Rule := {|
    Ingesters.ID := 1;
    Ingesters.Name := "AWS key";
    Ingesters.Part := "contents";
    Ingesters.SignatureToMatch := "AKIA[0-9A-Z]{16}" |};
  Ingesters.Severity := {| Ingesters.Level := "high"; Ingesters.Score := 0 |};
  Ingesters.ContainerName := "";
  Ingesters.HostName := "h1";
  Ingesters.KubernetesClusterName := "";
  Ingesters.Masked := "false";
  Ingesters.NodeID := "s1";
  Ingesters.NodeName := "h1";
  Ingesters.NodeType := "host";
  Ingesters.ScanID := "scan1" |}.

Definition status1 : Ingesters.SecretScanStatus := {|
  Ingesters.StatusTimestamp := 1700000000;
  Ingesters.StatusContainerName := "";
  Ingesters.StatusHostName := "h1";
  Ingesters.StatusKubernetesClusterName := "";
  Ingesters.StatusMasked := "false";
  Ingesters.StatusNodeID := "h1";
  Ingesters.StatusNodeName := "h1";
  Ingesters.StatusNodeType := "host";
  Ingesters.StatusScanID := "scan1";
  Ingesters.ScanStatus := "COMPLETE" |}.

(** A store that is up, with the clock at [t] milliseconds. *)
Definition healthy (t : Z) : Ingesters.Env := {|
  Ingesters.client_err := fun _ => None;
  Ingesters.begin_err := None;
  Ingesters.run_err := None;
  Ingesters.commit_err := None;
  Ingesters.clock := t |}.

(** A namespace whose client cannot be obtained. *)
Definition unreachable : Ingesters.Env := {|
  Ingesters.client_err := fun _ => Some "neo4j: connection refused";
  Ingesters.begin_err := None;
  Ingesters.run_err := None;
  Ingesters.commit_err := None;
  Ingesters.clock := 0 |}.

(** An empty database, and one where discovery has already created the
    host ["h1"]. *)
Definition fresh : Ingesters.world := Ingesters.World empty_graph [].

Definition with_host : Ingesters.world :=
  Ingesters.World (Graph [Node ["Node"] {[ "node_id" := VStr "h1" ]}] []) [].

(** The same scan as [status1], reported again as failed. *)
Definition status1_failed : Ingesters.SecretScanStatus := {|
  Ingesters.StatusTimestamp := 1700000060;
  Ingesters.StatusContainerName := "";
  Ingesters.StatusHostName := "h1";
  Ingesters.StatusKubernetesClusterName := "";
  Ingesters.StatusMasked := "false";
  Ingesters.StatusNodeID := "h1";
  Ingesters.StatusNodeName := "h1";
  Ingesters.StatusNodeType := "host";
  Ingesters.StatusScanID := "scan1";
  Ingesters.ScanStatus := "ERROR" |}.

End Samples.

(** * Sample stores and requests for the reporters *)

Module LookupSamples.
Import Neo4j Lookup.
Local Open Scope string_scope.
Local Open Scope list_scope.

Definition window : FetchWindow := {| Offset := 0; Size := 10 |}.

(** No field filter, no id filter. *)
Definition everything : LookupFilter :=
  {| InFieldFilter := []; NodeIds := []; Window := window |}.

(** The scenario of the spec: host ["h1"], field [processes] only. *)
Definition only_processes : LookupFilter :=
  {| InFieldFilter := ["processes"]; NodeIds := ["h1"]; Window := window |}.

(** A request naming something that is no field of any entity. *)
Definition bad_field : LookupFilter :=
  {| InFieldFilter := ["not a field"]; NodeIds := []; Window := window |}.

Definition node_record (label id : string) : record :=
  {| Keys := ["n"; "e"];
     Values := [VNode [label] {[ "node_id" := VStr id ]}; VNil] |}.

Definition related_record (label id : string) : record :=
  {| Keys := ["m"]; Values := [VNode [label] {[ "node_id" := VStr id ]}] |}.

(** A record with a classification node joined: both nodes carry [name]
    and [node_id], the classification node also [level]. *)
Definition classified_record : record :=
  {| Keys := ["n"; "e"];
     Values :=
       [ VNode ["Secret"] {[ "node_id" := VStr "1:h1"; "name" := VStr "finding" ]};
         VNode ["Rule"] {[ "node_id" := VInt 1; "name" := VStr "AWS key";
                           "level" := VStr "high" ]} ] |}.

(** A store that is up and answers [answer]. *)
Definition up (answer : string -> pmap -> run_outcome) : Store :=
  {| client_err := None; session_err := None; begin_err := None;
     answer := answer |}.

(** Answers every query with no rows. *)
Definition quiet : Store := up (fun _ _ => Records []).

(** Two hosts; every relation query finds nothing. *)
Definition two_hosts : Store :=
  up (fun q _ =>
        if String.eqb q (direct_query "Node" everything)
        then Records [node_record "Node" "h1"; node_record "Node" "h2"]
        else Records []).

(** One host row for the [only_processes] request (the projected
    property is absent on the node), and one process for the relation
    query. *)
Definition one_host_projected : Store :=
  up (fun q _ =>
        if String.eqb q (direct_query "Node" only_processes)
        then Records [ {| Keys := ["n.processes"; "e"]; Values := [VNil; VNil] |} ]
        else if String.eqb q host_processes_query
        then Records [related_record "Process" "p1"]
        else Records []).

(** One host whose process query fails while the other relation queries
    answer. *)
Definition processes_down : Store :=
  up (fun q _ =>
        if String.eqb q (direct_query "Node" everything)
        then Records [node_record "Node" "h1"]
        else if String.eqb q host_processes_query
        then RunFails "neo4j: query failed"
        else if String.eqb q host_containers_query
        then Records [related_record "Container" "c1"]
        else Records []).

(** One registry account whose image query fails. *)
Definition registry_images_down : Store :=
  up (fun q _ =>
        if String.eqb q (direct_query "RegistryAccount" everything)
        then Records [node_record "RegistryAccount" "reg1"]
        else if String.eqb q registry_images_query
        then RunFails "neo4j: query failed"
        else Records []).

(** One container image; the query for its containers answers with the
    image itself under the name [n], as its [RETURN n] asks. *)
Definition images_as_n : Store :=
  up (fun q _ =>
        if String.eqb q (direct_query "ContainerImage" everything)
        then Records [node_record "ContainerImage" "img1"]
        else if String.eqb q container_image_containers_query
        then Records [ {| Keys := ["n"];
                          Values := [VNode ["ContainerImage"]
                                       {[ "node_id" := VStr "img1" ]}] |} ]
        else Records []).

(** One container whose image query finds two images. *)
Definition one_container : Store :=
  up (fun q _ =>
        if String.eqb q (direct_query "Container" everything)
        then Records [node_record "Container" "c1"]
        else if String.eqb q container_container_images_query
        then Records [ related_record "ContainerImage" "img1";
                       related_record "ContainerImage" "img2" ]
        else Records []).

(** A relation query answered with one process and one row that has no
    [m]. *)
Definition one_process_one_stray : Store :=
  up (fun q _ =>
        if String.eqb q host_processes_query
        then Records [ related_record "Process" "p1";
                       {| Keys := ["x"]; Values := [VInt 1] |} ]
        else Records []).

End LookupSamples.

(** * Vocabulary of the statements below *)

Module IngestersTerms.
Import Neo4j Ingesters.
Local Open Scope string_scope.

(** What a database holds, by label and by relationship type:
    Rule, Secret and SecretScan nodes, then IS, DETECTED and SCANNED
    relationships. *)
Definition census (w : world) : nat * nat * nat * (nat * nat * nat) :=
  (count_label "Rule" (db w), count_label "Secret" (db w),
   count_label "SecretScan" (db w),
   (count_type "IS" (db w), count_type "DETECTED" (db w),
    count_type "SCANNED" (db w))).

Local Open Scope list_scope.

(** No [':'] among the characters of [s]. *)
Fixpoint colon_free (s : string) : Prop :=
  match s with
  | EmptyString => True
  | String c s' => c <> Ascii.ascii_of_nat 58 /\ colon_free s'
  end.

(** The store is up for the namespace: every driver call succeeds. *)
Definition store_up (env : Env) (ns : string) : Prop :=
  client_err env ns = None /\ begin_err env = None /\
  run_err env = None /\ commit_err env = None.

(** The SecretScan nodes keyed [id]. *)
Definition scan_nodes (id : string) (g : graph) : list nat :=
  match_nodes "SecretScan" [("node_id", VStr id)] g.

(** The [status] property of node [i]. *)
Definition status_of (i : nat) (g : graph) : option value :=
  nodes g !! i ≫= fun n => nprops n !! "status".

(** The batch row of one status, as the statement reads it. *)
Definition scan_row (s : SecretScanStatus) : value := VMap (ToMap s).

(** The node [MERGE (n:SecretScan{node_id: id})] creates. *)
Definition new_scan (id : string) : node :=
  Node ["SecretScan"] (list_to_map [("node_id", VStr id)]).

(** The rows after the [MERGE] clause, read in the graph [g']. *)
Definition merged_rows (data : list SecretScanStatus) (g' : graph) : list (value * nat) :=
  data ≫= fun s => (fun n => (scan_row s, n)) <$> scan_nodes (StatusScanID s) g'.

(** The [MERGE] clause of [status_query] on one row. *)
Definition merge_scan_step (row : value) (g : graph) : error + (graph * list (value * nat)) :=
  then_ (merge_node "SecretScan" [("node_id", prop row "scan_id")] g)
    (fun '(g, ns) => inr (g, (fun n => (row, n)) <$> ns)).

(** The last [scan_status] written to node [i] by the rows [t]. *)
Fixpoint last_status (i : nat) (t : list (value * nat)) : option value :=
  match t with
  | [] => None
  | (row, n) :: t' =>
      match last_status i t' with
      | Some v => Some v
      | None => if Nat.eqb n i then Some (prop row "scan_status") else None
      end
  end.

(** Node [i] after the [SET] clause over the rows [t]. *)
Definition restatus (t : list (value * nat)) (i : nat) (nd : node) : node :=
  match last_status i t with
  | Some v => Node (nlabels nd) (<["status" := v]> (nprops nd))
  | None => nd
  end.

(** The [SET] clause of [status_query] on one row. *)
Definition set_status_step (g : graph) (x : value * nat) : graph :=
  let '(row, n) := x in set_prop n "status" (prop row "scan_status") g.

(** [g'] keeps what [g] holds: the relationships of [g] come first in
    [g'], every node of [g] is still there under its id with its labels,
    and with each property that [may] does not release for its labels. *)
Definition keeps (may : list string -> string -> bool) (g g' : graph) : Prop :=
  edges g `prefix_of` edges g' /\
  forall i n, nodes g !! i = Some n ->
    exists n', nodes g' !! i = Some n' /\ nlabels n' = nlabels n /\
               forall k, may (nlabels n) k = false -> nprops n' !! k = nprops n !! k.

(** Node [i] of [g] carries the label [lbl]. *)
Definition labelled (lbl : string) (i : nat) (g : graph) : Prop :=
  exists n, nodes g !! i = Some n /\ has_label lbl n = true.

(** What the secrets statement may write: any property of a node labelled
    Rule or Secret. *)
Definition secrets_may (labels : list string) (k : string) : bool :=
  existsb (String.eqb "Rule") labels || existsb (String.eqb "Secret") labels.


(** The parameters [CommitFuncSecrets] hands to [tx.Run]. *)
Definition secrets_params (data : list Secret) : pmap :=
  {[ "batch" := batch_of_secrets (secretsToMaps data) ]}.

(** The parameters [CommitFuncSecretScanStatus] hands to [tx.Run]. *)
Definition status_params (data : list SecretScanStatus) : pmap :=
  {[ "batch" := batch_of_maps (statusesToMaps data) ]}.

(** The calls of a commit that goes through. *)
Definition commit_calls (query : string) (params : pmap) : list event :=
  [ EvNeo4jClient; EvSession; EvBeginTransaction; EvRun query params;
    EvCommit; EvTxClose; EvSessionClose ].

(** The two halves of a batch row, as the statement reads them. *)
Definition rule_of (i : Secret) : value := VMap (ToMap (Rule i)).
Definition secret_of (i : Secret) : value :=
  VMap (default ∅ (secret_row i !! "Secret")).

(** The key under which [secrets_query] merges the Secret node of [i]:
    the [rule_id] entry of the flattened map. *)
Definition rule_id (i : Secret) : option value :=
  secret_row i !! "Secret" ≫= (.!! "rule_id").

End IngestersTerms.

Module LookupTerms.
Import Neo4j Lookup.
Local Open Scope string_scope.
Local Open Scope list_scope.

(** The store hands out a client, a session and a transaction. *)
Definition connects (store : Store) : bool :=
  match client_err store, session_err store, begin_err store with
  | None, None, None => true
  | _, _, _ => false
  end.

(** An error the store itself reports for the query [q] with [p]. *)
Definition store_error (store : Store) (q : string) (p : pmap) (e : error) : Prop :=
  client_err store = Some e \/ session_err store = Some e \/
  begin_err store = Some e \/
  answer store q p = RunFails e \/ answer store q p = CollectFails e.

(** What a relation query brings back for one id; [None] when it
    fails. *)
Definition fetched (store : Store) T `{Decodable T} (q : string) (id : string)
    : option (list T) :=
  match (getIndirectFromIDs store T q [id]).1 with
  | Ok v => Some v
  | _ => None
  end.

(** Whether the request asks for the relation called [name]: the flags
    computed at the head of each report. *)
Definition wants (filter : LookupFilter) (name : string) : bool :=
  if (length (InFieldFilter filter) =? 0)%nat then true
  else InSlice name (InFieldFilter filter).

(** The relation queries of a host report that the request asks for, in
    the order of the loop body. *)
Definition host_relation_queries (filter : LookupFilter) : list string :=
  (if wants filter "processes" then [host_processes_query] else []) ++
  (if wants filter "containers" then [host_containers_query] else []) ++
  (if wants filter "container_images" then [host_container_images_query] else []) ++
  (if wants filter "pods" then [host_pods_query] else []).

(** A freshly decoded host after the loop body of [GetHostsReport]: a
    relation asked for holds what its query brought back for this host's
    id, or stays unset when the query failed; a relation not asked for
    stays unset. *)
Definition host_after (store : Store) (filter : LookupFilter) (h : Host) : Host :=
  mkHost (Host_ID h) (Host_fields h)
    (if wants filter "containers"
     then fetched store Container host_containers_query (Host_ID h) else None)
    (if wants filter "processes"
     then fetched store Process host_processes_query (Host_ID h) else None)
    (if wants filter "pods"
     then fetched store Pod host_pods_query (Host_ID h) else None)
    (if wants filter "container_images"
     then fetched store ContainerImage host_container_images_query (Host_ID h)
     else None).

(** The loop body of [GetHostsReport]. *)
Definition host_step (store : Store) (filter : LookupFilter) (host : Host) : M Host :=
  bind (enrich (wants filter "processes") (getHostProcesses store)
          set_Host_Processes host) (fun host =>
  bind (enrich (wants filter "containers") (getHostContainers store)
          set_Host_Containers host) (fun host =>
  bind (enrich (wants filter "container_images") (getHostContainerImages store)
          set_Host_ContainerImages host) (fun host =>
  enrich (wants filter "pods") (getHostPods store) set_Host_Pods host))).

(** The [Run] calls of one host's enrichment. *)
Definition host_runs (filter : LookupFilter) (h : Host) : list event :=
  (fun q => EvRun q (ids_param [Host_ID h])) <$> host_relation_queries filter.

(** The relations of a host: field name and relation query. *)
Definition host_relations : list (string * string) :=
  [ ("processes", host_processes_query);
    ("containers", host_containers_query);
    ("container_images", host_container_images_query);
    ("pods", host_pods_query) ].

(** Every [Run] call among [tr] carries the id of one entity of the page,
    alone. *)
Definition one_id_each (ids : list string) (tr : list event) : Prop :=
  forall q p, EvRun q p ∈ tr -> exists id, id ∈ ids /\ p = ids_param [id].

Definition is_close (e : event) : bool :=
  match e with EvTxClose | EvSessionClose => true | _ => false end.

Definition is_warning (e : event) : bool :=
  match e with EvLog "Missing neo4j entry" => true | _ => false end.

(** What [getIndirectFromIDs] makes of one record. *)
Definition decode_one {T} `{Decodable T} (rec : record) : option T :=
  match Get rec "m" with
  | (VNode _ props, true) => Some (FromMap props)
  | _ => None
  end.

(** The store hands out a client and a session. *)
Definition opens_session (store : Store) : bool :=
  match client_err store, session_err store with
  | None, None => true
  | _, _ => false
  end.

(** The close calls a lookup owes: the transaction's, then the
    session's, for what it has opened. *)
Definition closes_owed (store : Store) : list event :=
  if connects store then [EvTxClose; EvSessionClose]
  else if opens_session store then [EvSessionClose]
  else [].

(** A record the positional decoding and the overlay can take: a value
    for every requested field, and a node or nothing at [e]. *)
Definition well_shaped (fields : list string) (rec : record) : Prop :=
  (length fields <= length (Values rec))%nat /\
  match (Get rec "e").1 with VNil | VNode _ _ => True | _ => False end.

(** A container image after the loop body of [GetContainerImagesReport]. *)
Definition image_after (store : Store) (filter : LookupFilter) (i : ContainerImage)
    : ContainerImage :=
  if wants filter "image"
  then match fetched store Container container_image_containers_query
               (ContainerImage_ID i) with
       | Some v => set_ContainerImage_Containers v i
       | None => i
       end
  else i.

(** A cluster after the loop body of [GetKubernetesClustersReport]. *)
Definition cluster_after (store : Store) (filter : LookupFilter) (c : KubernetesCluster)
    : KubernetesCluster :=
  if wants filter "hosts"
  then match fetched store Host cluster_hosts_query (KubernetesCluster_ID c) with
       | Some v => set_KubernetesCluster_Hosts v c
       | None => c
       end
  else c.

(** A container after the loop body of [GetContainersReport]. *)
Definition container_after (store : Store) (filter : LookupFilter) (c : Container)
    : Container :=
  mkContainer (Container_ID c) (Container_fields c)
    (if wants filter "processes"
     then match fetched store Process container_processes_query (Container_ID c) with
          | Some v => Some v
          | None => Container_Processes c
          end
     else Container_Processes c)
    (if wants filter "image"
     then match fetched store ContainerImage container_container_images_query
                  (Container_ID c) with
          | Some (image :: _) => image
          | _ => Container_ContainerImage c
          end
     else Container_ContainerImage c).

(** The [Run] calls of one container's enrichment. *)
Definition container_runs (filter : LookupFilter) (c : Container) : list event :=
  (if wants filter "processes"
   then [EvRun container_processes_query (ids_param [Container_ID c])] else []) ++
  (if wants filter "image"
   then [EvRun container_container_images_query (ids_param [Container_ID c])] else []).

Definition images_run (a : RegistryAccount) : event :=
  EvRun registry_images_query (ids_param [RegistryAccount_ID a]).

(** The loop body of [GetRegistryAccountReport]. *)
Definition account_step (store : Store) (r : RegistryAccount) : M RegistryAccount :=
  bind (getRegistryImages store r) (fun container_images =>
  ret (set_RegistryAccount_ContainerImages container_images r)).

(** A registry account after the loop body, when its image query
    answered. *)
Definition account_after (store : Store) (a : RegistryAccount) : RegistryAccount :=
  match fetched store ContainerImage registry_images_query (RegistryAccount_ID a) with
  | Some v => set_RegistryAccount_ContainerImages v a
  | None => a
  end.

(** The four [Run] calls of a host's enrichment when no field is named. *)
Definition all_host_runs (h : Host) : list event :=
  [ EvRun host_processes_query (ids_param [Host_ID h]);
    EvRun host_containers_query (ids_param [Host_ID h]);
    EvRun host_container_images_query (ids_param [Host_ID h]);
    EvRun host_pods_query (ids_param [Host_ID h]) ].

End LookupTerms.

(** * Properties of the ingester *)

Module IngestersSpec.
Import Neo4j Ingesters Samples IngestersTerms.
Local Open Scope string_scope.
Local Open Scope list_scope.

Lemma copy_into_union (src dst : pmap) : copy_into src dst = src ∪ dst.
Proof.
  unfold copy_into.
  apply (map_fold_weak_ind (fun r (m : pmap) => r = m ∪ dst)).
  - by rewrite (left_id_L ∅ (∪)).
  - intros k v m r Hk ->. by rewrite insert_union_l.
Qed.

Lemma fold_append {A B : Type} (f : A -> B) (xs : list A) (acc : list B) :
  fold_left (fun ys x => ys ++ [f x]) xs acc = acc ++ (f <$> xs).
Proof.
  revert acc. induction xs as [|x xs IH]; intros acc; simpl.
  - by rewrite app_nil_r.
  - rewrite IH. by rewrite <- app_assoc.
Qed.

Lemma secretsToMaps_rows (data : list Secret) :
  secretsToMaps data = secret_row <$> data.
Proof. unfold secretsToMaps. by rewrite fold_append. Qed.

Lemma statusesToMaps_rows (data : list SecretScanStatus) :
  statusesToMaps data = ToMap <$> data.
Proof. unfold statusesToMaps. by rewrite fold_append. Qed.

(** The keys of the three nested groups. *)
Lemma rule_keys (r : SecretRule) (k : string) :
  is_Some (ToMap r !! k) ->
  k = "id" \/ k = "name" \/ k = "part" \/ k = "signature_to_match".
Proof.
  intros H%elem_of_dom. revert H. unfold ToMap, SecretRule_Struct.
  rewrite !dom_insert_L, dom_singleton_L. set_solver.
Qed.

Lemma match_keys (m : SecretMatch) (k : string) :
  is_Some (ToMap m !! k) ->
  k = "starting_index" \/ k = "relative_starting_index" \/
  k = "relative_ending_index" \/ k = "full_filename" \/ k = "matched_content".
Proof.
  intros H%elem_of_dom. revert H. unfold ToMap, SecretMatch_Struct.
  rewrite !dom_insert_L, dom_singleton_L. set_solver.
Qed.

Lemma severity_keys (v : SecretSeverity) (k : string) :
  is_Some (ToMap v !! k) -> k = "level" \/ k = "score".
Proof.
  intros H%elem_of_dom. revert H. unfold ToMap, SecretSeverity_Struct.
  rewrite !dom_insert_L, dom_singleton_L. set_solver.
Qed.

(** The flattened map of one secret, in closed form. *)
Lemma secret_row_Secret (i : Secret) :
  secret_row i !! "Secret" =
  Some (<["rule_id" := VStr (Sprintf_v_colon_v (ID (Rule i)) (HostName i))]>
          (ToMap (Match i) ∪
             (ToMap (Severity i) ∪
                delete "Match" (delete "Rule" (delete "Severity" (ToMap i)))))).
Proof.
  unfold secret_row. rewrite !copy_into_union.
  rewrite lookup_insert_ne by done. by rewrite lookup_singleton_eq.
Qed.

(** C7, as the spec words it, fails: the Rule group is not spread into
    the flattened map.  For [secret1] the rule's [signature_to_match] is
    missing from the map handed over under ["Secret"]. *)
Lemma secretsToMaps_rule_group_not_spread :
  exists secret : pmap,
    secretsToMaps [secret1] !! 0%nat ≫= (.!! "Secret") = Some secret /\
    ToMap (Rule secret1) !! "signature_to_match" = Some (VStr "AKIA[0-9A-Z]{16}") /\
    secret !! "signature_to_match" = None.
Proof. eexists. repeat split; reflexivity. Qed.

(** C7 (amended): for every Secret record of a batch, the row handed to
    the store has the entries ["Rule"], the Rule group's properties, and
    ["Secret"], the flattened map.  In the flattened map [rule_id] is the
    string "<Rule.ID>:<HostName>", the Match and the Severity group
    properties are spread into the top level, and the nested keys Rule,
    Match and Severity are removed.  The Rule group's properties are not
    in the flattened map: they travel in the row's ["Rule"] entry. *)
Theorem secretsToMaps_flattens (data : list Secret) (j : nat) (i : Secret) :
  data !! j = Some i ->
  exists secret : pmap,
    secretsToMaps data !! j
      = Some {[ "Rule" := ToMap (Rule i); "Secret" := secret ]} /\
    secret !! "rule_id"
      = Some (VStr (pretty (ID (Rule i)) +:+ ":" +:+ HostName i)) /\
    (forall k v, ToMap (Match i) !! k = Some v -> secret !! k = Some v) /\
    (forall k v, ToMap (Severity i) !! k = Some v -> secret !! k = Some v) /\
    secret !! "Rule" = None /\ secret !! "Match" = None /\
    secret !! "Severity" = None /\
    (forall k, is_Some (ToMap (Rule i) !! k) -> secret !! k = None).
Proof.
  intros Hj. eexists. split.
  { rewrite secretsToMaps_rows, list_lookup_fmap, Hj. reflexivity. }
  split; [reflexivity|].
  split.
  { intros k v Hk.
    destruct (match_keys (Match i) k) as [->|[->|[->|[->| ->]]]]; [by eexists|..];
      rewrite <- Hk; reflexivity. }
  split.
  { intros k v Hk.
    destruct (severity_keys (Severity i) k) as [->| ->]; [by eexists|..];
      rewrite <- Hk; reflexivity. }
  repeat (split; [reflexivity|]).
  intros k Hk.
  destruct (rule_keys (Rule i) k) as [->|[->|[->| ->]]]; [done|..]; reflexivity.
Qed.

Lemma secretsToMaps_flattens_witness :
  exists secret : pmap,
    secretsToMaps [secret1] !! 0%nat
      = Some {[ "Rule" := ToMap (Rule secret1); "Secret" := secret ]} /\
    secret !! "rule_id" = Some (VStr "1:h1").
Proof.
  destruct (secretsToMaps_flattens [secret1] 0 secret1 eq_refl)
    as (secret & Hrow & Hid & _).
  exists secret. split; [exact Hrow | exact Hid].
Defined.

(** C8: [CommitFuncSecretScanStatus] on an empty batch returns success;
    the namespace's client handle is looked up and nothing else happens:
    no session, no transaction, no statement, and the database is left as
    it was. *)
Theorem CommitFuncSecretScanStatus_empty_is_noop (env : Env) (ns : string) (w : world) :
  exists calls : list event,
    CommitFuncSecretScanStatus env ns [] w
      = (Ok tt, World (db w) (trace w ++ calls)) /\
    calls = [EvNeo4jClient] /\
    Forall (fun e => is_store_op e = false) calls /\
    (EvSession ∉ calls) /\ (EvBeginTransaction ∉ calls) /\
    (forall q p, EvRun q p ∉ calls) /\ (EvCommit ∉ calls).
Proof.
  exists [EvNeo4jClient]. split.
  { unfold CommitFuncSecretScanStatus, Neo4jClient, attempt, bind, emit, or_fail.
    simpl. destruct (client_err env ns); reflexivity. }
  split; [reflexivity|].
  split; [by repeat constructor|].
  repeat split; try intros ? ?; by intros [=]%list_elem_of_singleton.
Qed.

(** C10: when the namespace's client cannot be obtained,
    [CommitFuncSecretScanStatus] still returns success on an empty batch:
    the error of the lookup is only looked at after the empty-batch
    return, so it surfaces for a batch with at least one entry and never
    for an empty one. *)
Theorem CommitFuncSecretScanStatus_empty_hides_client_error
    (env : Env) (ns : string) (w : world) (e : error) :
  client_err env ns = Some e ->
  (CommitFuncSecretScanStatus env ns [] w).1 = Ok tt /\
  forall i data, (CommitFuncSecretScanStatus env ns (i :: data) w).1 = Err e.
Proof.
  intros He. split.
  - unfold CommitFuncSecretScanStatus, Neo4jClient, attempt, bind, emit, or_fail.
    simpl. by rewrite He.
  - intros i data.
    unfold CommitFuncSecretScanStatus, Neo4jClient, attempt, bind, emit, or_fail.
    simpl. by rewrite He.
Qed.

Lemma CommitFuncSecretScanStatus_empty_hides_client_error_witness :
  (CommitFuncSecretScanStatus unreachable "tenant-a" [] fresh).1 = Ok tt /\
  (CommitFuncSecretScanStatus unreachable "tenant-a" [status1] fresh).1
    = Err "neo4j: connection refused".
Proof.
  destruct (CommitFuncSecretScanStatus_empty_hides_client_error
              unreachable "tenant-a" fresh "neo4j: connection refused" eq_refl)
    as [Hempty Hfull].
  split; [exact Hempty | exact (Hfull status1 [])].
Defined.

(** C1 (the code departs from it): ingesting [secret1] a second time
    adds nodes and relationships.  On an empty database, a second run
    one millisecond later adds a second SecretScan node, because
    [time_stamp: timestamp()] is part of the MERGE pattern.  On a database
    that has the host, a second run at the very same clock value adds a
    second Secret node with its IS and DETECTED relationships, because
    [SET n += row] has overwritten the first one's [node_id] with the
    record's own [node_id]. *)
Theorem CommitFuncSecrets_twice_duplicates :
  let once := (CommitFuncSecrets (healthy 1000) "tenant-a" [secret1] fresh).2 in
  let twice := (CommitFuncSecrets (healthy 1001) "tenant-a" [secret1] once).2 in
  let once_h := (CommitFuncSecrets (healthy 1000) "tenant-a" [secret1] with_host).2 in
  let twice_h := (CommitFuncSecrets (healthy 1000) "tenant-a" [secret1] once_h).2 in
  (CommitFuncSecrets (healthy 1001) "tenant-a" [secret1] once).1 = Ok tt /\
  census once = (1, 1, 1, (1, 0, 0))%nat /\
  census twice = (1, 1, 2, (1, 0, 0))%nat /\
  (CommitFuncSecrets (healthy 1000) "tenant-a" [secret1] once_h).1 = Ok tt /\
  census once_h = (1, 1, 1, (1, 1, 1))%nat /\
  census twice_h = (1, 2, 1, (2, 2, 1))%nat.
Proof. vm_compute. repeat split; reflexivity. Qed.

(** C2 (the code departs from it): with no node for host ["h1"] in the
    database, ingesting [secret1] returns success and creates the Rule
    (node 0), the Secret (node 1, keyed ["1:h1"]) with its IS relationship,
    and the SecretScan (node 2); no SCANNED relationship is made, but no
    DETECTED relationship either, and the Secret keeps [node_id] as its
    only property: the [MATCH] on the host yields no row, so the clauses
    after it do nothing.  With the host present both relationships are
    made. *)
Theorem CommitFuncSecrets_without_host_drops_DETECTED :
  let '(r, w) := CommitFuncSecrets (healthy 1000) "tenant-a" [secret1] fresh in
  let '(r_h, w_h) := CommitFuncSecrets (healthy 1000) "tenant-a" [secret1] with_host in
  r = Ok tt /\
  nlabels <$> nodes (db w) = [["Rule"]; ["Secret"]; ["SecretScan"]] /\
  (nprops <$> nodes (db w)) !! 1%nat = Some {[ "node_id" := VStr "1:h1" ]} /\
  edges (db w) = [Edge 1 "IS" 0] /\
  has_edge 2 "DETECTED" 1 (db w) = false /\
  count_type "SCANNED" (db w) = 0%nat /\
  r_h = Ok tt /\
  edges (db w_h) = [Edge 2 "IS" 1; Edge 3 "DETECTED" 2; Edge 3 "SCANNED" 0].
Proof. vm_compute. repeat split; reflexivity. Qed.

End IngestersSpec.

(** * Properties of the reporters *)

Module LookupSpec.
Import Neo4j Lookup LookupSamples LookupTerms.
Local Open Scope string_scope.
Local Open Scope list_scope.

(** ** The classification overlay *)

Lemma overlay_fold_lookup (props node_map : pmap) (k : string) :
  map_fold (fun k v acc => if String.eqb k "node_id" then acc else <[k:=v]> acc)
    node_map props !! k
  = if decide (k = "node_id") then node_map !! k
    else match props !! k with
         | Some v => Some v
         | None => node_map !! k
         end.
Proof.
  revert k.
  apply (map_fold_weak_ind
           (fun r (m : pmap) => forall k,
              r !! k = if decide (k = "node_id") then node_map !! k
                       else match m !! k with
                            | Some v => Some v
                            | None => node_map !! k
                            end)).
  - intros k. rewrite lookup_empty. by destruct (decide _).
  - intros i x m r Hi IH k.
    destruct (String.eqb_spec i "node_id") as [-> | Hne].
    + rewrite IH. destruct (decide (k = "node_id")) as [->|Hk]; [done|].
      by rewrite lookup_insert_ne.
    + destruct (decide (i = k)) as [<- | Hik].
      * rewrite !lookup_insert_eq. by destruct (decide _).
      * rewrite !lookup_insert_ne by done. apply IH.
Qed.

(** C5: when a record carries a joined classification node and is mapped
    to an entity, the map the entity is decoded from holds every property
    of the classification node except [node_id], the classification
    node's value winning over the primary node's on a shared key; on
    [node_id] and on keys the classification node lacks, the primary
    value stays. *)
Theorem record_map_overlays_classification
    (fields : list string) (rec : record) (labels : list string) (props m : pmap) :
  (Get rec "e").1 = VNode labels props ->
  record_map fields rec = Ok (Some m) ->
  exists primary : pmap,
    primary_map fields rec = Ok (Some primary) /\
    (forall k v, k <> "node_id" -> props !! k = Some v -> m !! k = Some v) /\
    (forall k, k = "node_id" \/ props !! k = None -> m !! k = primary !! k) /\
    (forall T (D : Decodable T), map_records fields [rec] [] = (Ok [FromMap m], [])).
Proof.
  intros He Hm. unfold record_map in Hm.
  destruct (primary_map fields rec) as [[primary|]| |] eqn:Hp; try discriminate.
  rewrite He in Hm. simpl in Hm. injection Hm as <-.
  exists primary. split; [done|]. split; [|split].
  - intros k v Hk Hv. rewrite overlay_fold_lookup, Hv. by destruct (decide _).
  - intros k [-> | Hk]; rewrite overlay_fold_lookup.
    + done.
    + rewrite Hk. by destruct (decide _).
  - intros T D. simpl. unfold record_map. rewrite Hp, He. reflexivity.
Qed.

Lemma record_map_overlays_classification_witness :
  exists primary : pmap,
    primary_map [] classified_record = Ok (Some primary) /\
    (forall k v, k <> "node_id" ->
       ({[ "node_id" := VInt 1; "name" := VStr "AWS key";
           "level" := VStr "high" ]} : pmap) !! k = Some v ->
       ({[ "node_id" := VStr "1:h1"; "name" := VStr "AWS key";
           "level" := VStr "high" ]} : pmap) !! k = Some v) /\
    (forall k, k = "node_id" \/
       ({[ "node_id" := VInt 1; "name" := VStr "AWS key";
           "level" := VStr "high" ]} : pmap) !! k = None ->
       ({[ "node_id" := VStr "1:h1"; "name" := VStr "AWS key";
           "level" := VStr "high" ]} : pmap) !! k = primary !! k) /\
    (forall T (D : Decodable T),
       map_records [] [classified_record] []
       = (Ok [FromMap {[ "node_id" := VStr "1:h1"; "name" := VStr "AWS key";
                         "level" := VStr "high" ]}], [])).
Proof.
  apply (record_map_overlays_classification [] classified_record ["Rule"]
           {[ "node_id" := VInt 1; "name" := VStr "AWS key"; "level" := VStr "high" ]}
           {[ "node_id" := VStr "1:h1"; "name" := VStr "AWS key";
              "level" := VStr "high" ]}).
  - vm_compute. reflexivity.
  - vm_compute. reflexivity.
Defined.

(** ** Reading the monad *)

Lemma bind_ret_r {A} (c : M A) : bind c ret = c.
Proof.
  destruct c as [[a|e|msg] tr]; simpl; [|done..].
  by rewrite app_nil_r.
Qed.

Lemma forRange_total {A} (f : A -> M A) (g : A -> A) (t : A -> list event)
    (xs : list A) :
  (forall x, f x = (Ok (g x), t x)) ->
  forRange f xs = (Ok (g <$> xs), xs ≫= t).
Proof.
  intros Hf. induction xs as [|x xs IH]; [done|].
  simpl. rewrite Hf, IH. simpl. by rewrite app_nil_r.
Qed.

Lemma enrich_total {A B} (flag : bool) (get : A -> M B) (set : B -> A -> A) (x : A) :
  (forall msg, (get x).1 <> Panic msg) ->
  enrich flag get set x
  = (Ok (if flag then match (get x).1 with Ok v => set v x | _ => x end else x),
     if flag then (get x).2 else []).
Proof.
  intros Hget. unfold enrich, attempt. destruct flag; [|done].
  destruct (get x) as [[v|e|msg] tr]; simpl in *.
  - by rewrite app_nil_r.
  - by rewrite app_nil_r.
  - by destruct (Hget msg).
Qed.

Lemma filter_bind {A B} (p : B -> bool) (f : A -> list B) (xs : list A) :
  List.filter p (xs ≫= f) = xs ≫= (fun x => List.filter p (f x)).
Proof.
  induction xs as [|x xs IH]; [done|].
  by rewrite !bind_cons, List.filter_app, IH.
Qed.

Lemma length_bind_const {A B} (f : A -> list B) (n : nat) (xs : list A) :
  (forall x, length (f x) = n) -> length (xs ≫= f) = (length xs * n)%nat.
Proof.
  intros Hf. induction xs as [|x xs IH]; [done|].
  rewrite bind_cons, length_app, Hf, IH. simpl. lia.
Qed.

Lemma bind_trace {A B} (c : M A) (k : A -> M B) :
  (bind c k).2 = c.2 ++ match c.1 with Ok a => (k a).2 | _ => [] end.
Proof.
  destruct c as [[a|e|msg] tr]; simpl.
  - by destruct (k a).
  - by rewrite app_nil_r.
  - by rewrite app_nil_r.
Qed.

Lemma bind_result_Ok {A B} (c : M A) (k : A -> M B) (a : A) :
  c.1 = Ok a -> (bind c k).1 = (k a).1.
Proof. destruct c as [[a'|e|msg] tr]; simpl; intros [= ->]. by destruct (k a). Qed.

Lemma enrich_trace {A B} (flag : bool) (get : A -> M B) (set : B -> A -> A) (x : A) :
  (enrich flag get set x).2 = if flag then (get x).2 else [].
Proof.
  unfold enrich, attempt. destruct flag; [|done].
  destruct (get x) as [[v|e|msg] tr]; simpl; by rewrite ?app_nil_r.
Qed.

Lemma enrich_result {A B} (flag : bool) (get : A -> M B) (set : B -> A -> A) (x y : A) :
  (enrich flag get set x).1 = Ok y -> y = x \/ exists v, y = set v x.
Proof.
  unfold enrich, attempt. destruct flag; [|intros [= <-]; by left].
  destruct (get x) as [[v|e|msg] tr]; simpl; intros [= <-]; eauto.
Qed.

Lemma enrich_returns {A B} (flag : bool) (get : A -> M B) (set : B -> A -> A) (x : A) :
  (forall msg, (get x).1 <> Panic msg) -> exists y, (enrich flag get set x).1 = Ok y.
Proof. intros Hget. rewrite enrich_total by done. by eexists. Qed.

Lemma forRange_trace_elem {A} (f : A -> M A) (xs : list A) (e : event) :
  e ∈ (forRange f xs).2 -> exists x, x ∈ xs /\ e ∈ (f x).2.
Proof.
  induction xs as [|x xs IH]; simpl.
  - by intros ?%not_elem_of_nil.
  - rewrite bind_trace. intros [He|He]%elem_of_app.
    + exists x. split; [apply list_elem_of_here | done].
    + destruct (f x).1 as [y| |]; [|by apply not_elem_of_nil in He..].
      rewrite bind_trace in He. apply elem_of_app in He as [He|He].
      * destruct (IH He) as (x' & Hx' & He'). exists x'. split; [|done].
        by apply list_elem_of_further.
      * destruct (forRange f xs).1; by apply not_elem_of_nil in He.
Qed.

Lemma forRange_returns {A} (f : A -> M A) (xs : list A) :
  (forall x, exists y, (f x).1 = Ok y) ->
  exists ys, (forRange f xs).1 = Ok ys /\ length ys = length xs.
Proof.
  intros Hf. induction xs as [|x xs (ys & Hys & Hlen)]; simpl.
  - by exists [].
  - destruct (Hf x) as [y Hy]. exists (y :: ys).
    rewrite (bind_result_Ok _ _ y Hy), (bind_result_Ok _ _ ys Hys). simpl.
    by rewrite Hlen.
Qed.

(** ** One query, from client to close *)

Lemma decode_m_total {T} `{Decodable T} (recs : list record) (res : list T) :
  exists out, (decode_m recs res).1 = Ok out /\
              List.filter is_run (decode_m recs res).2 = [].
Proof.
  revert res. induction recs as [|rec recs IH]; intros res; simpl.
  - by eexists.
  - destruct (Get rec "m") as [data [|]]; simpl.
    + destruct data;
        try (destruct (IH res) as (out & Hout & Hruns);
             destruct (decode_m recs res) as [r tr]; simpl in *; subst r;
             by eexists).
      apply IH.
    + destruct (IH res) as (out & Hout & Hruns).
      destruct (decode_m recs res) as [r tr]; simpl in *; subst r. by eexists.
Qed.

Lemma map_records_total {T} `{Decodable T} (fields : list string)
    (recs : list record) (res : list T) :
  (forall e, (map_records fields recs res).1 <> Err e) /\
  List.filter is_run (map_records fields recs res).2 = [] /\
  (forall out, (map_records fields recs res).1 = Ok out ->
     exists ms : list pmap, out = res ++ (FromMap <$> ms)).
Proof.
  revert res. induction recs as [|rec recs IH]; intros res; simpl.
  - repeat split; [done|]. intros out [= <-]. exists []. by rewrite app_nil_r.
  - destruct (record_map fields rec) as [[m|]|e|msg] eqn:Hrec.
    + destruct (IH (res ++ [FromMap m])) as (Hne & Hruns & Hout).
      repeat split; [done..|].
      intros out Ho. destruct (Hout out Ho) as [ms ->].
      exists (m :: ms). by rewrite <- app_assoc.
    + destruct (IH res) as (Hne & Hruns & Hout).
      destruct (map_records fields recs res) as [r tr]; simpl in *.
      repeat split; [done..|]. intros out Ho. by apply Hout.
    + exfalso. unfold record_map, primary_map in Hrec.
      destruct (length fields =? 0)%nat.
      * destruct (Get rec "n") as [data [|]]; simpl in Hrec; [|done].
        destruct data; try done.
        destruct (Get rec "e").1; simpl in Hrec; done.
      * assert (forall fs i vals nm e', positional fs i vals nm <> Err e') as Hpos.
        { induction fs as [|f fs IHf]; intros i vals nm e'; simpl; [done|].
          destruct (vals !! i); [apply IHf | done]. }
        destruct (positional fields 0 (Values rec) ∅) as [m'|e'|msg'] eqn:Hp;
          [|by destruct (Hpos _ _ _ _ _ Hp)|done].
        destruct (Get rec "e").1; simpl in Hrec; done.
    + simpl. repeat split; done.
Qed.

Section OneStore.
Context (store : Store).

(** A relation query never panics, and makes one [Run] call, for its
    own text and ids, when the store connects. *)
Lemma getIndirectFromIDs_total T `{Decodable T} (q : string) (ids : list string) :
  (forall msg, (getIndirectFromIDs store T q ids).1 <> Panic msg) /\
  List.filter is_run (getIndirectFromIDs store T q ids).2
  = if connects store then [EvRun q (ids_param ids)] else [].
Proof.
  unfold getIndirectFromIDs, Neo4jClient, Session, BeginTransaction, Run,
    Collect, connects.
  destruct (client_err store), (session_err store), (begin_err store);
    simpl; try done.
  destruct (answer store q (ids_param ids)) as [e|e|recs]; simpl; try done.
  destruct (decode_m_total (T:=T) recs []) as (out & Hout & Hruns).
  destruct (decode_m recs []) as [r tr]; simpl in *; subst r. simpl.
  rewrite !List.filter_app, Hruns. split; [done | reflexivity].
Qed.

(** The direct query: what it takes for it to return, and what it
    returns then. *)
Lemma getGenericDirectNodeReport_Ok T `{Cypherable T} (filter : LookupFilter)
    (res : list T) (tr : list event) :
  getGenericDirectNodeReport store T filter = (Ok res, tr) ->
  connects store = true /\ exists ms : list pmap, res = FromMap <$> ms.
Proof.
  unfold getGenericDirectNodeReport, Neo4jClient, Session, BeginTransaction,
    Run, Collect, connects.
  destruct (client_err store), (session_err store), (begin_err store);
    simpl; try done.
  destruct (answer store _ _) as [e|e|recs]; simpl; try done.
  destruct (map_records_total (T:=T) (InFieldFilter filter) recs [])
    as (_ & _ & Hout).
  destruct (map_records (InFieldFilter filter) recs []) as [r tr'];
    simpl in *.
  intros [= -> <-]. split; [done|]. by apply Hout.
Qed.

(** C3 (amended): a lookup call does not validate [InFieldFilter].
    Whatever the field names are, the call starts by reaching for the
    store; when the store connects it runs exactly one statement, the
    text of [direct_query], which ends in
    [RETURN <FieldFilterCypher("n", InFieldFilter)>, e]; and an error it
    returns is one the store reported, never a validation error of its
    own. *)
Theorem getGenericDirectNodeReport_does_not_validate T `{Cypherable T}
    (filter : LookupFilter) :
  let q := direct_query (NodeType (T:=T)) filter in
  let p := ids_param (NodeIds filter) in
  let '(r, tr) := getGenericDirectNodeReport store T filter in
  (exists rest, tr = EvNeo4jClient :: rest) /\
  List.filter is_run tr = (if connects store then [EvRun q p] else []) /\
  (forall e, r = Err e -> store_error store q p e) /\
  (exists lines,
     q = raw_lines 3
           (lines ++ ["RETURN " +:+ FieldFilterCypher "n" (InFieldFilter filter)
                      +:+ ", e"])).
Proof.
  intros q p.
  destruct (getGenericDirectNodeReport store T filter) as [r tr] eqn:Hrun.
  revert Hrun.
  unfold getGenericDirectNodeReport, Neo4jClient, Session, BeginTransaction,
    Run, Collect, connects, store_error.
  fold q p.
  assert (exists lines,
     q = raw_lines 3
           (lines ++ ["RETURN " +:+ FieldFilterCypher "n" (InFieldFilter filter)
                      +:+ ", e"])) as Hq.
  { unfold q, direct_query. destruct (length (NodeIds filter) =? 0)%nat.
    - by exists ["MATCH (n:" +:+ NodeType +:+ ")"; "OPTIONAL MATCH (n) -[:IS]-> (e)"].
    - by exists ["MATCH (n:" +:+ NodeType +:+ ")"; "WHERE n.node_id IN $ids";
                 "OPTIONAL MATCH (n) -[:IS]-> (e)"]. }
  destruct (client_err store) as [e1|] eqn:H1; simpl.
  { intros [= <- <-]. refine (conj _ (conj _ (conj _ Hq))); [by eexists|done|].
    intros e [= ->]. by left. }
  destruct (session_err store) as [e2|] eqn:H2; simpl.
  { intros [= <- <-]. refine (conj _ (conj _ (conj _ Hq))); [by eexists|done|].
    intros e [= ->]. by right; left. }
  destruct (begin_err store) as [e3|] eqn:H3; simpl.
  { intros [= <- <-]. refine (conj _ (conj _ (conj _ Hq))); [by eexists|done|].
    intros e [= ->]. by right; right; left. }
  destruct (answer store q p) as [e|e|recs] eqn:Hans; simpl.
  { intros [= <- <-]. refine (conj _ (conj _ (conj _ Hq))); [by eexists|done|].
    intros e' [= ->]. by right; right; right; left. }
  { intros [= <- <-]. refine (conj _ (conj _ (conj _ Hq))); [by eexists|done|].
    intros e' [= ->]. by right; right; right; right. }
  destruct (map_records_total (T:=T) (InFieldFilter filter) recs [])
    as (Hne & Hruns & _).
  destruct (map_records (InFieldFilter filter) recs []) as [r' tr'];
    simpl in *.
  intros [= <- <-]. refine (conj _ (conj _ (conj _ Hq))); [by eexists| |].
  - cbn [List.filter is_run]. rewrite !List.filter_app, Hruns. done.
  - intros e ->. by destruct (Hne e).
Qed.

End OneStore.

(** C3, as the spec words it, fails: a request for the field
    ["not a field"] on hosts is not rejected.  The call goes to the store
    first, sends the name inside the statement, and returns success. *)
Lemma unknown_field_reaches_the_store :
  getGenericDirectNodeReport quiet Host bad_field
  = (Ok [],
     [ EvNeo4jClient; EvSession; EvBeginTransaction;
       EvLog ("query: " +:+
              raw_lines 3 [ "MATCH (n:Node)"; "OPTIONAL MATCH (n) -[:IS]-> (e)";
                            "RETURN n.not a field, e" ]);
       EvRun (raw_lines 3 [ "MATCH (n:Node)"; "OPTIONAL MATCH (n) -[:IS]-> (e)";
                            "RETURN n.not a field, e" ])
             (ids_param []);
       EvCollect; EvTxClose; EvSessionClose ]).
Proof. vm_compute. reflexivity. Qed.

(** ** Enrichment *)

Lemma enrich_ext {A B} (flag : bool) (get get' : A -> M B) (set : B -> A -> A) (x : A) :
  get x = get' x -> enrich flag get set x = enrich flag get' set x.
Proof. unfold enrich. by intros ->. Qed.

Lemma elem_of_host_relation_queries (filter : LookupFilter) (q : string) :
  q ∈ host_relation_queries filter <->
  exists name, (name, q) ∈ host_relations /\ wants filter name = true.
Proof.
  unfold host_relation_queries, host_relations. split.
  - rewrite !elem_of_app. intros [H|[H|[H|H]]].
    + destruct (wants filter "processes") eqn:E; [|by apply not_elem_of_nil in H].
      apply list_elem_of_singleton in H as ->. exists "processes". split; [|done].
      apply list_elem_of_here.
    + destruct (wants filter "containers") eqn:E; [|by apply not_elem_of_nil in H].
      apply list_elem_of_singleton in H as ->. exists "containers". split; [|done].
      do 1 apply list_elem_of_further. apply list_elem_of_here.
    + destruct (wants filter "container_images") eqn:E; [|by apply not_elem_of_nil in H].
      apply list_elem_of_singleton in H as ->. exists "container_images". split; [|done].
      do 2 apply list_elem_of_further. apply list_elem_of_here.
    + destruct (wants filter "pods") eqn:E; [|by apply not_elem_of_nil in H].
      apply list_elem_of_singleton in H as ->. exists "pods". split; [|done].
      do 3 apply list_elem_of_further. apply list_elem_of_here.
  - intros (name & Hin & Hw). rewrite !elem_of_app.
    repeat (apply elem_of_cons in Hin as [[= -> ->]|Hin]);
      [ | | | | by apply not_elem_of_nil in Hin]; rewrite Hw.
    + left. apply list_elem_of_here.
    + right; left. apply list_elem_of_here.
    + right; right; left. apply list_elem_of_here.
    + right; right; right. apply list_elem_of_here.
Qed.

Lemma elem_of_host_runs (filter : LookupFilter) (hosts : list Host) (tr : list event) :
  List.filter is_run tr = hosts ≫= host_runs filter ->
  forall q p, EvRun q p ∈ tr <->
    exists name h, (name, q) ∈ host_relations /\ wants filter name = true /\
                   h ∈ hosts /\ p = ids_param [Host_ID h].
Proof.
  intros Hruns q p.
  assert (EvRun q p ∈ tr <-> EvRun q p ∈ List.filter is_run tr) as ->.
  { rewrite !list_elem_of_In, List.filter_In. simpl. tauto. }
  rewrite Hruns, list_elem_of_bind. unfold host_runs. split.
  - intros (h & Hq & Hh). apply list_elem_of_fmap in Hq as (q' & [= -> ->] & Hq').
    apply elem_of_host_relation_queries in Hq' as (name & Hin & Hw).
    by exists name, h.
  - intros (name & h & Hin & Hw & Hh & ->). exists h. split; [|done].
    apply list_elem_of_fmap. exists q. split; [done|].
    apply elem_of_host_relation_queries. by exists name.
Qed.

Section Enrichment.
Context (store : Store).

(** One guarded enrichment, for any entity type: the entity after it
    and the calls made. *)
Lemma enrich_relation {A} T `{Decodable T} (flag : bool) (q : string)
    (key : A -> string) (set : list T -> A -> A) (x : A) :
  enrich flag (fun x => getIndirectFromIDs store T q [key x]) set x
  = (Ok (if flag
         then match fetched store T q (key x) with Some v => set v x | None => x end
         else x),
     if flag then (getIndirectFromIDs store T q [key x]).2 else []).
Proof.
  rewrite enrich_total by apply getIndirectFromIDs_total.
  unfold fetched. destruct flag; [|done].
  by destruct (getIndirectFromIDs store T q [key x]).1.
Qed.

Lemma relation_runs T `{Decodable T} (flag : bool) (q : string) (id : string) :
  connects store = true ->
  List.filter is_run (if flag then (getIndirectFromIDs store T q [id]).2 else [])
  = if flag then [EvRun q (ids_param [id])] else [].
Proof.
  intros Hc. destruct flag; [|done].
  destruct (getIndirectFromIDs_total store T q [id]) as [_ ->]. by rewrite Hc.
Qed.

(** The loop body of [GetHostsReport] on a freshly decoded host. *)
Lemma host_step_total (filter : LookupFilter) (id : string) (fields : pmap) :
  connects store = true ->
  let h := mkHost id fields None None None None in
  exists t,
    host_step store filter h = (Ok (host_after store filter h), t) /\
    List.filter is_run t = host_runs filter h.
Proof.
  intros Hc h. subst h.
  unfold host_step, host_after, host_runs, host_relation_queries.
  generalize (wants filter "processes") (wants filter "containers")
    (wants filter "container_images") (wants filter "pods").
  intros wP wC wI wPo.
  unfold getHostProcesses, getHostContainerImages, getHostPods.
  rewrite (enrich_relation Process wP host_processes_query Host_ID).
  cbn [bind Host_ID].
  assert (forall (b : bool) (o : option (list Process)),
            (if b then match o with
                       | Some v => set_Host_Processes v
                                     (mkHost id fields None None None None)
                       | None => mkHost id fields None None None None
                       end
             else mkHost id fields None None None None)
            = mkHost id fields None (if b then o else None) None None) as ->
    by (by intros [] [|]).
  rewrite (enrich_ext wC (getHostContainers store)
             (fun host => getIndirectFromIDs store Container
                            host_containers_query [Host_ID host]))
    by apply bind_ret_r.
  rewrite (enrich_relation Container wC host_containers_query Host_ID).
  cbn [bind Host_ID].
  set (p := if wP then _ else None).
  assert (forall (b : bool) (o : option (list Container)),
            (if b then match o with
                       | Some v => set_Host_Containers v
                                     (mkHost id fields None p None None)
                       | None => mkHost id fields None p None None
                       end
             else mkHost id fields None p None None)
            = mkHost id fields (if b then o else None) p None None) as ->
    by (by intros [] [|]).
  rewrite (enrich_relation ContainerImage wI host_container_images_query Host_ID).
  cbn [bind Host_ID].
  set (c := if wC then _ else None).
  assert (forall (b : bool) (o : option (list ContainerImage)),
            (if b then match o with
                       | Some v => set_Host_ContainerImages v
                                     (mkHost id fields c p None None)
                       | None => mkHost id fields c p None None
                       end
             else mkHost id fields c p None None)
            = mkHost id fields c p None (if b then o else None)) as ->
    by (by intros [] [|]).
  rewrite (enrich_relation Pod wPo host_pods_query Host_ID).
  cbn [bind Host_ID].
  set (i := if wI then _ else None).
  assert (forall (b : bool) (o : option (list Pod)),
            (if b then match o with
                       | Some v => set_Host_Pods v (mkHost id fields c p None i)
                       | None => mkHost id fields c p None i
                       end
             else mkHost id fields c p None i)
            = mkHost id fields c p (if b then o else None) i) as ->
    by (by intros [] [|]).
  eexists. split; [reflexivity|].
  rewrite !List.filter_app, !relation_runs by done.
  by destruct wP, wC, wI, wPo.
Qed.

(** [GetHostsReport] once the direct query has returned its page: the
    hosts come back enriched, and the [Run] calls of the enrichment
    are those of each host in turn. *)
Lemma GetHostsReport_enrichment (filter : LookupFilter) (hosts : list Host)
    (tr1 : list event) :
  getGenericDirectNodeReport store Host filter = (Ok hosts, tr1) ->
  exists tr2,
    GetHostsReport store filter
    = (Ok (host_after store filter <$> hosts), tr1 ++ tr2) /\
    List.filter is_run tr2 = hosts ≫= host_runs filter.
Proof.
  intros Hbase.
  destruct (getGenericDirectNodeReport_Ok store Host filter hosts tr1 Hbase)
    as (Hc & ms & ->).
  cbn [Cypherable_Decodable Host_Cypherable] in *.
  assert (exists tr2,
            forRange (host_step store filter) (@FromMap Host Host_Decodable <$> ms)
            = (Ok (host_after store filter <$> (@FromMap Host Host_Decodable <$> ms)),
               tr2) /\
            List.filter is_run tr2
            = (@FromMap Host Host_Decodable <$> ms) ≫= host_runs filter)
    as (tr2 & Hloop & Hruns).
  { clear Hbase. induction ms as [|m ms IH].
    - by exists [].
    - destruct IH as (tr2 & Hloop & Hruns).
      destruct (host_step_total filter (id_of m) m Hc) as (t & Ht & Htruns).
      exists (t ++ tr2). split.
      + cbn [fmap list_fmap forRange].
        change (@FromMap Host Host_Decodable m)
          with (mkHost (id_of m) m None None None None).
        rewrite Ht. cbn [bind].
        change (list_fmap _ _ ?f ms) with (f <$> ms).
        rewrite Hloop. cbn. by rewrite app_nil_r.
      + rewrite List.filter_app, Htruns, Hruns. by rewrite fmap_cons, bind_cons. }
  exists tr2. split; [|done].
  unfold GetHostsReport. rewrite Hbase. cbn [bind].
  unfold host_step, wants in Hloop.
  destruct (length (InFieldFilter filter) =? 0)%nat; cbv beta iota;
    by rewrite Hloop.
Qed.

(** C6: on a request with a non-empty [InFieldFilter], [GetHostsReport]
    enriches exactly the relations whose field name is in the filter.  Each
    host comes back with a relation named in the filter holding what its
    query brought back for that host's id, and with a relation not named
    left unset; and a relation query is run for a host if and only if its
    relation is named in the filter, so none is run for the others. *)
Theorem GetHostsReport_enriches_named_relations_only
    (filter : LookupFilter) (hosts : list Host) (tr1 : list event) :
  InFieldFilter filter <> [] ->
  getGenericDirectNodeReport store Host filter = (Ok hosts, tr1) ->
  exists tr2,
    GetHostsReport store filter
    = (Ok (host_after store filter <$> hosts), tr1 ++ tr2) /\
    (forall name, wants filter name = InSlice name (InFieldFilter filter)) /\
    (forall q p,
       EvRun q p ∈ tr2 <->
       exists name h,
         (name, q) ∈ host_relations /\
         InSlice name (InFieldFilter filter) = true /\
         h ∈ hosts /\ p = ids_param [Host_ID h]).
Proof.
  intros Hne Hbase.
  assert (forall name, wants filter name = InSlice name (InFieldFilter filter)) as Hw.
  { intros name. unfold wants. by destruct (InFieldFilter filter). }
  destruct (GetHostsReport_enrichment filter hosts tr1 Hbase) as (tr2 & Hrep & Hruns).
  exists tr2. split; [done|]. split; [done|].
  intros q p. rewrite (elem_of_host_runs filter hosts tr2 Hruns).
  split; intros (name & h & Hin & Hn & Hh & Hp); exists name, h;
    (split; [done|]); (split; [|done]); by rewrite ?Hw in *.
Qed.

(** The guarded reports return once their direct query has: a failing
    relation query is not passed on. *)
Lemma GetHostsReport_isolates_enrichment (filter : LookupFilter)
    (hosts : list Host) (tr1 : list event) :
  getGenericDirectNodeReport store Host filter = (Ok hosts, tr1) ->
  exists hosts', (GetHostsReport store filter).1 = Ok hosts' /\
                 length hosts' = length hosts.
Proof.
  intros Hbase.
  destruct (GetHostsReport_enrichment filter hosts tr1 Hbase) as (tr2 & -> & _).
  eexists. split; [done|]. by rewrite length_fmap.
Qed.

Lemma getIndirectFromIDs_run_elem T `{Decodable T} (q : string) (ids : list string)
    (q' : string) (p : pmap) :
  EvRun q' p ∈ (getIndirectFromIDs store T q ids).2 -> p = ids_param ids.
Proof.
  intros He.
  assert (EvRun q' p ∈ List.filter is_run (getIndirectFromIDs store T q ids).2) as Hf.
  { rewrite list_elem_of_In, List.filter_In. by rewrite <- list_elem_of_In. }
  destruct (getIndirectFromIDs_total store T q ids) as [_ Hruns]. rewrite Hruns in Hf.
  destruct (connects store); [|by apply not_elem_of_nil in Hf].
  by apply list_elem_of_singleton in Hf as [= _ ->].
Qed.

(** A report is its direct query followed by the loop over the page. *)
Lemma report_after_page {A} (base : M (list A)) (f : A -> M A)
    (page : list A) (tr1 : list event) :
  base = (Ok page, tr1) ->
  bind base (forRange f) = ((forRange f page).1, tr1 ++ (forRange f page).2).
Proof. intros ->. simpl. by destruct (forRange f page). Qed.

Lemma one_id_each_loop {A} (key : A -> string) (f : A -> M A) (page : list A) :
  (forall x q p, EvRun q p ∈ (f x).2 -> p = ids_param [key x]) ->
  one_id_each (key <$> page) (forRange f page).2.
Proof.
  intros Hf q p He. apply forRange_trace_elem in He as (x & Hx & He).
  exists (key x). split.
  - apply list_elem_of_fmap. by exists x.
  - by apply (Hf x q).
Qed.

Lemma GetContainersReport_one_id_each (filter : LookupFilter)
    (page : list Container) (tr1 : list event) :
  getGenericDirectNodeReport store Container filter = (Ok page, tr1) ->
  exists r tr2,
    GetContainersReport store filter = (r, tr1 ++ tr2) /\
    one_id_each (Container_ID <$> page) tr2.
Proof.
  intros Hbase. unfold GetContainersReport.
  destruct (if (length (InFieldFilter filter) =? 0)%nat then (true, true)
            else (InSlice "processes" (InFieldFilter filter),
                  InSlice "image" (InFieldFilter filter))) as [wP wI].
  rewrite (report_after_page _ _ page tr1 Hbase).
  eexists _, _. split; [reflexivity|].
  apply (one_id_each_loop Container_ID). intros c q p.
  rewrite bind_trace, enrich_trace. intros [He|He]%elem_of_app.
  - destruct wP; [|by apply not_elem_of_nil in He].
    by apply getIndirectFromIDs_run_elem in He.
  - destruct (enrich wP _ _ c).1 as [c'| |] eqn:Hc'; [|by apply not_elem_of_nil in He..].
    rewrite enrich_trace in He. destruct wI; [|by apply not_elem_of_nil in He].
    apply getIndirectFromIDs_run_elem in He as ->.
    apply enrich_result in Hc' as [-> | [v ->]]; [done|]. by destruct c.
Qed.

Lemma GetContainerImagesReport_one_id_each (filter : LookupFilter)
    (page : list ContainerImage) (tr1 : list event) :
  getGenericDirectNodeReport store ContainerImage filter = (Ok page, tr1) ->
  exists r tr2,
    GetContainerImagesReport store filter = (r, tr1 ++ tr2) /\
    one_id_each (ContainerImage_ID <$> page) tr2.
Proof.
  intros Hbase. unfold GetContainerImagesReport.
  rewrite (report_after_page _ _ page tr1 Hbase).
  eexists _, _. split; [reflexivity|].
  apply (one_id_each_loop ContainerImage_ID). intros c q p.
  rewrite enrich_trace. destruct (if (_ =? _)%nat then _ else _).
  - apply getIndirectFromIDs_run_elem.
  - by intros ?%not_elem_of_nil.
Qed.

Lemma GetKubernetesClustersReport_one_id_each (filter : LookupFilter)
    (page : list KubernetesCluster) (tr1 : list event) :
  getGenericDirectNodeReport store KubernetesCluster filter = (Ok page, tr1) ->
  exists r tr2,
    GetKubernetesClustersReport store filter = (r, tr1 ++ tr2) /\
    one_id_each (KubernetesCluster_ID <$> page) tr2.
Proof.
  intros Hbase. unfold GetKubernetesClustersReport.
  rewrite (report_after_page _ _ page tr1 Hbase).
  eexists _, _. split; [reflexivity|].
  apply (one_id_each_loop KubernetesCluster_ID). intros c q p.
  rewrite enrich_trace. destruct (if (_ =? _)%nat then _ else _).
  - apply getIndirectFromIDs_run_elem.
  - by intros ?%not_elem_of_nil.
Qed.

Lemma GetRegistryAccountReport_one_id_each (filter : LookupFilter)
    (page : list RegistryAccount) (tr1 : list event) :
  getGenericDirectNodeReport store RegistryAccount filter = (Ok page, tr1) ->
  exists r tr2,
    GetRegistryAccountReport store filter = (r, tr1 ++ tr2) /\
    one_id_each (RegistryAccount_ID <$> page) tr2.
Proof.
  intros Hbase. unfold GetRegistryAccountReport.
  rewrite (report_after_page _ _ page tr1 Hbase).
  eexists _, _. split; [reflexivity|].
  apply (one_id_each_loop RegistryAccount_ID). intros c q p.
  rewrite bind_trace. intros [He|He]%elem_of_app.
  - by apply getIndirectFromIDs_run_elem in He.
  - destruct (getRegistryImages store c).1; by apply not_elem_of_nil in He.
Qed.

(** The guarded reports return once their direct query has. *)
Lemma guarded_reports_isolate_enrichment (filter : LookupFilter) :
  (forall page tr1,
     getGenericDirectNodeReport store Container filter = (Ok page, tr1) ->
     exists page', (GetContainersReport store filter).1 = Ok page' /\
                   length page' = length page) /\
  (forall page tr1,
     getGenericDirectNodeReport store ContainerImage filter = (Ok page, tr1) ->
     exists page', (GetContainerImagesReport store filter).1 = Ok page' /\
                   length page' = length page) /\
  (forall page tr1,
     getGenericDirectNodeReport store KubernetesCluster filter = (Ok page, tr1) ->
     exists page', (GetKubernetesClustersReport store filter).1 = Ok page' /\
                   length page' = length page).
Proof.
  split; [|split]; intros page tr1 Hbase.
  - unfold GetContainersReport.
    destruct (if (length (InFieldFilter filter) =? 0)%nat then (true, true)
              else (InSlice "processes" (InFieldFilter filter),
                    InSlice "image" (InFieldFilter filter))) as [wP wI].
    rewrite (report_after_page _ _ page tr1 Hbase). simpl.
    apply forRange_returns. intros c.
    destruct (enrich_returns wP (getContainerProcesses store) set_Container_Processes c)
      as [c' Hc']; [apply getIndirectFromIDs_total|].
    rewrite (bind_result_Ok _ _ c' Hc').
    apply enrich_returns, getIndirectFromIDs_total.
  - unfold GetContainerImagesReport.
    rewrite (report_after_page _ _ page tr1 Hbase). simpl.
    apply forRange_returns. intros c. apply enrich_returns, getIndirectFromIDs_total.
  - unfold GetKubernetesClustersReport.
    rewrite (report_after_page _ _ page tr1 Hbase). simpl.
    apply forRange_returns. intros c. apply enrich_returns, getIndirectFromIDs_total.
Qed.

(** C9 (amended): a report fetches each enriched relation with one query
    per entity of the page, keyed by that entity's id alone, not with one
    query for the page.  For [GetHostsReport] the [Run] calls of the
    enrichment are, for each host in turn, one call per enriched relation
    with the one-element id list of that host, so their number is the
    number of hosts times the number of enriched relations; in the other
    reports every [Run] call of the enrichment carries the one-element id
    list of an entity of the page. *)
Theorem reports_query_once_per_entity (filter : LookupFilter) :
  (forall hosts tr1,
     getGenericDirectNodeReport store Host filter = (Ok hosts, tr1) ->
     exists hosts' tr2,
       GetHostsReport store filter = (Ok hosts', tr1 ++ tr2) /\
       List.filter is_run tr2
       = hosts ≫= (fun h => (fun q => EvRun q (ids_param [Host_ID h]))
                              <$> host_relation_queries filter) /\
       length (List.filter is_run tr2)
       = (length hosts * length (host_relation_queries filter))%nat) /\
  (forall page tr1,
     getGenericDirectNodeReport store Container filter = (Ok page, tr1) ->
     exists r tr2,
       GetContainersReport store filter = (r, tr1 ++ tr2) /\
       one_id_each (Container_ID <$> page) tr2) /\
  (forall page tr1,
     getGenericDirectNodeReport store ContainerImage filter = (Ok page, tr1) ->
     exists r tr2,
       GetContainerImagesReport store filter = (r, tr1 ++ tr2) /\
       one_id_each (ContainerImage_ID <$> page) tr2) /\
  (forall page tr1,
     getGenericDirectNodeReport store KubernetesCluster filter = (Ok page, tr1) ->
     exists r tr2,
       GetKubernetesClustersReport store filter = (r, tr1 ++ tr2) /\
       one_id_each (KubernetesCluster_ID <$> page) tr2) /\
  (forall page tr1,
     getGenericDirectNodeReport store RegistryAccount filter = (Ok page, tr1) ->
     exists r tr2,
       GetRegistryAccountReport store filter = (r, tr1 ++ tr2) /\
       one_id_each (RegistryAccount_ID <$> page) tr2).
Proof.
  split; [|split; [|split; [|split]]].
  - intros hosts tr1 Hbase.
    destruct (GetHostsReport_enrichment filter hosts tr1 Hbase) as (tr2 & Hrep & Hruns).
    exists (host_after store filter <$> hosts), tr2.
    split; [done|]. split; [done|].
    rewrite Hruns. apply length_bind_const.
    intros h. unfold host_runs. by rewrite length_fmap.
  - apply GetContainersReport_one_id_each.
  - apply GetContainerImagesReport_one_id_each.
  - apply GetKubernetesClustersReport_one_id_each.
  - apply GetRegistryAccountReport_one_id_each.
Qed.

End Enrichment.

Lemma GetHostsReport_enriches_named_relations_only_witness :
  exists tr2,
    GetHostsReport one_host_projected only_processes
    = (Ok [ mkHost "" {[ "processes" := VNil ]}
              None
              (Some [ {| Process_ID := "p1";
                         Process_fields := {[ "node_id" := VStr "p1" ]} |} ])
              None None ],
       (getGenericDirectNodeReport one_host_projected Host only_processes).2 ++ tr2) /\
    (EvRun host_processes_query (ids_param [""]) ∈ tr2) /\
    (forall p, EvRun host_containers_query p ∉ tr2) /\
    (forall p, EvRun host_container_images_query p ∉ tr2) /\
    (forall p, EvRun host_pods_query p ∉ tr2).
Proof.
  destruct (GetHostsReport_enriches_named_relations_only one_host_projected
              only_processes
              [mkHost "" {[ "processes" := VNil ]} None None None None]
              (getGenericDirectNodeReport one_host_projected Host only_processes).2)
    as (tr2 & Hrep & _ & Hruns).
  - discriminate.
  - vm_compute. reflexivity.
  - exists tr2. split; [exact Hrep|]. split.
    + apply Hruns. exists "processes", (mkHost "" {[ "processes" := VNil ]} None None None None).
      split; [apply list_elem_of_here|]. split; [reflexivity|].
      split; [apply list_elem_of_here | reflexivity].
    + assert (forall name, InSlice name ["processes"] = true -> name = "processes")
        as Hproc.
      { intros name. unfold InSlice. simpl. rewrite orb_false_r.
        by intros ->%String.eqb_eq. }
      repeat split; intros p (name & h & Hin & ->%Hproc & _)%Hruns;
        match type of Hin with
        | ?P => assert (bool_decide P = false) as Hd by (vm_compute; reflexivity)
        end;
        apply bool_decide_eq_false in Hd; exact (Hd Hin).
Defined.

Lemma reports_query_once_per_entity_witness :
  exists hosts' tr2,
    GetHostsReport two_hosts everything
    = (Ok hosts', (getGenericDirectNodeReport two_hosts Host everything).2 ++ tr2) /\
    length (List.filter is_run tr2) = 8%nat.
Proof.
  destruct (reports_query_once_per_entity two_hosts everything) as [Hhosts _].
  destruct (Hhosts
              [ mkHost "h1" {[ "node_id" := VStr "h1" ]} None None None None;
                mkHost "h2" {[ "node_id" := VStr "h2" ]} None None None None ]
              (getGenericDirectNodeReport two_hosts Host everything).2)
    as (hosts' & tr2 & Hrep & _ & Hlen).
  - vm_compute. reflexivity.
  - exists hosts', tr2. split; [exact Hrep | exact Hlen].
Defined.

(** C9, as the spec words it, fails: for a page of two hosts and all
    four relations enriched, eight relation queries are run, not four;
    each carries the id of one host, and none carries the id list of the
    page. *)
Lemma GetHostsReport_two_hosts_eight_queries :
  let tr := (GetHostsReport two_hosts everything).2 in
  (exists hosts, (GetHostsReport two_hosts everything).1 = Ok hosts /\
                 Host_ID <$> hosts = ["h1"; "h2"]) /\
  List.filter is_run tr
  = [ EvRun (direct_query "Node" everything) (ids_param []);
      EvRun host_processes_query (ids_param ["h1"]);
      EvRun host_containers_query (ids_param ["h1"]);
      EvRun host_container_images_query (ids_param ["h1"]);
      EvRun host_pods_query (ids_param ["h1"]);
      EvRun host_processes_query (ids_param ["h2"]);
      EvRun host_containers_query (ids_param ["h2"]);
      EvRun host_container_images_query (ids_param ["h2"]);
      EvRun host_pods_query (ids_param ["h2"]) ] /\
  length (host_relation_queries everything) = 4%nat.
Proof.
  split; [|split].
  - eexists. split; vm_compute; reflexivity.
  - vm_compute. reflexivity.
  - reflexivity.
Qed.

(** C4 (the code departs from it): with one registry account in the
    store and its image query failing, the direct query returns the
    account but [GetRegistryAccountReport] returns the error of the
    image query.  [GetHostsReport] in the same situation (the process
    query failing) returns the host with the other relations filled and
    [Processes] unset. *)
Theorem GetRegistryAccountReport_passes_enrichment_error_on :
  (getGenericDirectNodeReport registry_images_down RegistryAccount everything).1
  = Ok [mkRegistryAccount "reg1" {[ "node_id" := VStr "reg1" ]} None] /\
  (GetRegistryAccountReport registry_images_down everything).1
  = Err "neo4j: query failed" /\
  (GetHostsReport processes_down everything).1
  = Ok [ mkHost "h1" {[ "node_id" := VStr "h1" ]}
           (Some [ mkContainer "c1" {[ "node_id" := VStr "c1" ]} None
                     (mkContainerImage "" ∅ None) ])
           None (Some []) (Some []) ].
Proof. repeat split; vm_compute; reflexivity. Qed.

End LookupSpec.

(** * Further properties of the ingester *)

Module IngestersProperties.
Import Neo4j Ingesters Samples IngestersTerms IngestersSpec.
Local Open Scope string_scope.
Local Open Scope list_scope.

(** ** The key of a Secret node *)

Lemma pretty_N_go_colon_free (x : N) (s : string) :
  colon_free s -> colon_free (pretty_N_go x s).
Proof.
  revert s. induction (N.lt_wf_0 x) as [x _ IH]; intros s Hs.
  assert (x = 0 \/ 0 < x)%N as [->|Hx] by lia.
  - by rewrite pretty_N_go_0.
  - rewrite pretty_N_go_step by done. apply IH.
    + by apply N.div_lt.
    + split; [|done]. unfold pretty_N_char. by repeat case_match.
Qed.

Lemma pretty_Z_colon_free (z : Z) : colon_free (pretty z).
Proof.
  destruct z as [|p|p]; unfold pretty, pretty_Z.
  - by split.
  - unfold pretty, pretty_positive, pretty, pretty_N.
    case_decide; [by split|]. by apply pretty_N_go_colon_free.
  - split; [done|]. unfold pretty, pretty_positive, pretty, pretty_N.
    case_decide; [by split|]. by apply pretty_N_go_colon_free.
Qed.

Lemma colon_split (s1 s2 t1 t2 : string) :
  colon_free s1 -> colon_free s2 ->
  s1 +:+ ":" +:+ t1 = s2 +:+ ":" +:+ t2 -> s1 = s2 /\ t1 = t2.
Proof.
  revert s2. induction s1 as [|c s1 IH]; intros [|c' s2]; simpl.
  - intros _ _ [= Ht]. done.
  - intros _ [Hc _] [= Hcc _]. by destruct Hc.
  - intros [Hc _] _ [= Hcc _]. by destruct Hc.
  - intros [_ H1] [_ H2] [= -> Heq]. destruct (IH s2 H1 H2 Heq) as [-> ->]. done.
Qed.

Lemma Sprintf_v_colon_v_inj (id id' : Z) (host host' : string) :
  Sprintf_v_colon_v id host = Sprintf_v_colon_v id' host' ->
  id = id' /\ host = host'.
Proof.
  unfold Sprintf_v_colon_v. intros H.
  assert (pretty id +:+ ":" +:+ host = pretty id' +:+ ":" +:+ host') as H'.
  { exact H. }
  apply colon_split in H' as [Hid ->]; try apply pretty_Z_colon_free.
  split; [|done]. by apply (inj pretty).
Qed.

(** X1: the [rule_id] that [secretsToMaps] writes into a secret's
    flattened map, the key under which the statement merges the Secret
    node, identifies the rule and the host and nothing else: two secrets
    get the same [rule_id] if and only if they have the same [Rule.ID]
    and the same [HostName], whatever file, match or scan they come
    from. *)
Theorem rule_id_identifies_rule_and_host (i j : Secret) :
  rule_id i = rule_id j <-> ID (Rule i) = ID (Rule j) /\ HostName i = HostName j.
Proof.
  unfold rule_id. rewrite !secret_row_Secret. cbn [mbind option_bind].
  rewrite !lookup_insert_eq. split.
  - intros [= Heq]. by apply Sprintf_v_colon_v_inj.
  - by intros [-> ->].
Qed.

(** ** The status statement, clause by clause *)

Lemma find_nodes_from_app (k : nat) lbl pat (l1 l2 : list node) :
  find_nodes_from k lbl pat (l1 ++ l2)
  = find_nodes_from k lbl pat l1 ++ find_nodes_from (k + length l1) lbl pat l2.
Proof.
  revert k. induction l1 as [|n l1 IH]; intros k; simpl.
  - by rewrite Nat.add_0_r.
  - rewrite IH. replace (S k + length l1)%nat with (k + S (length l1))%nat by lia.
    by destruct (node_matches lbl pat n).
Qed.

Lemma elem_of_find_nodes_from (k : nat) lbl pat (l : list node) (i : nat) :
  i ∈ find_nodes_from k lbl pat l <->
  exists n, (k <= i)%nat /\ l !! (i - k)%nat = Some n /\ node_matches lbl pat n = true.
Proof.
  revert k. induction l as [|n l IH]; intros k; simpl.
  - split; [by intros ?%not_elem_of_nil | by intros (? & _ & ? & _)].
  - assert (i ∈ find_nodes_from (S k) lbl pat l <->
            exists n', (k < i)%nat /\ l !! (i - S k)%nat = Some n' /\
                       node_matches lbl pat n' = true) as Htl.
    { rewrite IH. split; intros (n' & ? & ? & ?); exists n'; (split; [lia|done]). }
    destruct (node_matches lbl pat n) eqn:Hn.
    + rewrite elem_of_cons, Htl. split.
      * intros [->|(n' & Hlt & Hl & Hm)].
        -- exists n. rewrite Nat.sub_diag. done.
        -- exists n'. split; [lia|]. split; [|done].
           replace (i - k)%nat with (S (i - S k)) by lia. done.
      * intros (n' & Hle & Hl & Hm).
        destruct (decide (i = k)) as [->|Hne]; [by left|right].
        exists n'. split; [lia|]. split; [|done].
        replace (i - k)%nat with (S (i - S k)) in Hl by lia. done.
    + rewrite Htl. split.
      * intros (n' & Hlt & Hl & Hm). exists n'. split; [lia|]. split; [|done].
        replace (i - k)%nat with (S (i - S k)) by lia. done.
      * intros (n' & Hle & Hl & Hm).
        destruct (decide (i = k)) as [->|Hne].
        { rewrite Nat.sub_diag in Hl. simpl in Hl. congruence. }
        exists n'. split; [lia|]. split; [|done].
        replace (i - k)%nat with (S (i - S k)) in Hl by lia. done.
Qed.

Lemma elem_of_match_nodes lbl pat (g : graph) (i : nat) :
  i ∈ match_nodes lbl pat g <->
  exists n, nodes g !! i = Some n /\ node_matches lbl pat n = true.
Proof.
  unfold match_nodes. rewrite elem_of_find_nodes_from. rewrite Nat.sub_0_r.
  split; [intros (n & _ & ? & ?) | intros (n & ? & ?)]; exists n; auto with lia.
Qed.

(** Matching depends on the labels and on the properties the pattern
    names. *)
Lemma find_nodes_from_ext (k : nat) lbl pat (l1 l2 : list node) :
  Forall2 (fun n1 n2 => node_matches lbl pat n1 = node_matches lbl pat n2) l1 l2 ->
  find_nodes_from k lbl pat l1 = find_nodes_from k lbl pat l2.
Proof.
  intros H. revert k. induction H as [|n1 n2 l1 l2 Hn _ IH]; intros k; simpl; [done|].
  by rewrite Hn, IH.
Qed.

Lemma new_scan_matches (id id' : string) :
  node_matches "SecretScan" [("node_id", VStr id')] (new_scan id) = String.eqb id id'.
Proof.
  unfold node_matches, new_scan, has_label. simpl.
  rewrite lookup_insert_eq. simpl. by rewrite andb_true_r.
Qed.

Lemma scan_nodes_snoc (id id' : string) (g : graph) :
  scan_nodes id' (Graph (nodes g ++ [new_scan id]) (edges g))
  = scan_nodes id' g ++ (if String.eqb id id' then [length (nodes g)] else []).
Proof.
  unfold scan_nodes, match_nodes. simpl. rewrite find_nodes_from_app. simpl.
  by rewrite new_scan_matches.
Qed.

Lemma merge_scan_head (s : SecretScanStatus) (g : graph) :
  exists g1,
    merge_node "SecretScan" [("node_id", prop (scan_row s) "scan_id")] g
    = inr (g1, scan_nodes (StatusScanID s) g1) /\
    scan_nodes (StatusScanID s) g1 <> [] /\
    edges g1 = edges g /\
    (g1 = g \/ nodes g1 = nodes g ++ [new_scan (StatusScanID s)]) /\
    (scan_nodes (StatusScanID s) g <> [] -> g1 = g) /\
    (forall id, scan_nodes id g <> [] -> scan_nodes id g1 = scan_nodes id g).
Proof.
  change (prop (scan_row s) "scan_id") with (VStr (StatusScanID s)).
  unfold merge_node. simpl.
  fold (scan_nodes (StatusScanID s) g).
  destruct (scan_nodes (StatusScanID s) g) as [|i l] eqn:Hm.
  - exists (Graph (nodes g ++ [new_scan (StatusScanID s)]) (edges g)).
    rewrite scan_nodes_snoc, Hm, String.eqb_refl. simpl.
    split; [done|]. split; [done|]. split; [done|]. split; [by right|].
    split; [done|].
    intros id Hid. rewrite scan_nodes_snoc.
    destruct (String.eqb_spec (StatusScanID s) id) as [<-|_]; [done|].
    by rewrite app_nil_r.
  - exists g. rewrite Hm. by repeat split; auto.
Qed.

Lemma merge_phase (data : list SecretScanStatus) (g : graph) :
  exists g',
    for_rows merge_scan_step (scan_row <$> data) g = inr (g', merged_rows data g') /\
    edges g' = edges g /\
    (exists new, nodes g' = nodes g ++ new /\
                 Forall (fun n => exists s, s ∈ data /\ n = new_scan (StatusScanID s)) new) /\
    (forall s, s ∈ data -> scan_nodes (StatusScanID s) g' <> []) /\
    (forall id, scan_nodes id g <> [] -> scan_nodes id g' = scan_nodes id g) /\
    ((forall s, s ∈ data -> scan_nodes (StatusScanID s) g <> []) -> g' = g).
Proof.
  revert g. induction data as [|s data IH]; intros g.
  - exists g. split; [done|]. split; [done|]. split.
    { exists []. by rewrite app_nil_r. }
    split; [by intros ? ?%not_elem_of_nil|]. done.
  - destruct (merge_scan_head s g) as (g1 & Hhead & Hne & He1 & Hn1 & Hsame1 & Hst1).
    destruct (IH g1) as (g' & Hrows & He & (new & Hn & Hnew) & Hall & Hst & Hsame).
    exists g'. split; [|split; [|split; [|split; [|split]]]].
    + cbn [fmap list_fmap for_rows]. unfold merge_scan_step at 1.
      rewrite Hhead. cbn [then_].
      change (list_fmap _ _ scan_row data) with (scan_row <$> data).
      rewrite Hrows. unfold merged_rows. rewrite bind_cons.
      by rewrite (Hst _ Hne).
    + congruence.
    + destruct Hn1 as [-> | Hn1].
      * exists new. split; [done|].
        eapply Forall_impl; [exact Hnew|]. intros n (s' & Hs' & ->).
        exists s'. split; [by apply list_elem_of_further | done].
      * exists (new_scan (StatusScanID s) :: new). split.
        { rewrite Hn, Hn1, <- app_assoc. done. }
        constructor.
        { exists s. split; [apply list_elem_of_here | done]. }
        eapply Forall_impl; [exact Hnew|]. intros n (s' & Hs' & ->).
        exists s'. split; [by apply list_elem_of_further | done].
    + intros s' [->|Hs']%elem_of_cons.
      * by rewrite (Hst _ Hne).
      * by apply Hall.
    + intros id Hid. rewrite Hst; rewrite Hst1; done.
    + intros Hpre.
      assert (g1 = g) as Hg1 by apply Hsame1, Hpre, list_elem_of_here.
      rewrite <- Hg1. apply Hsame. intros s' Hs'. rewrite Hg1.
      apply Hpre. by apply list_elem_of_further.
Qed.

Lemma last_status_app (i : nat) (t1 t2 : list (value * nat)) :
  last_status i (t1 ++ t2)
  = match last_status i t2 with Some v => Some v | None => last_status i t1 end.
Proof.
  induction t1 as [|[row n] t1 IH]; simpl.
  - by destruct (last_status i t2).
  - rewrite IH. by destruct (last_status i t2).
Qed.

Lemma set_phase (t : list (value * nat)) (g : graph) :
  Forall (fun x => is_nil (prop x.1 "scan_status") = false) t ->
  fold_left set_status_step t g = Graph (imap (restatus t) (nodes g)) (edges g).
Proof.
  revert g. induction t as [|[row n] t IH]; intros g Ht.
  - simpl. destruct g as [ns es]. simpl. f_equal.
    apply list_eq. intros i. rewrite list_lookup_imap. by destruct (ns !! i).
  - apply Forall_cons in Ht as [Hv Ht]. simpl in Hv. cbn [fold_left].
    rewrite IH by done. unfold set_status_step at 1, set_prop. rewrite Hv. simpl.
    f_equal. apply list_eq. intros i.
    rewrite !list_lookup_imap.
    destruct (decide (n = i)) as [->|Hne].
    + rewrite list_lookup_alter_eq. destruct (nodes g !! i) as [nd|]; simpl; [|done].
      f_equal. unfold restatus. simpl. rewrite Nat.eqb_refl.
      destruct (last_status i t); simpl; [|done]. by rewrite insert_insert_eq.
    + rewrite list_lookup_alter_ne by done.
      destruct (nodes g !! i) as [nd|]; simpl; [|done].
      f_equal. unfold restatus. simpl.
      destruct (Nat.eqb_spec n i); [done|]. by destruct (last_status i t).
Qed.

(** The statement on a decoded batch. *)
Lemma run_status_query_on_batch (data : list SecretScanStatus) (g : graph) :
  exists g',
    run_status_query {[ "batch" := batch_of_maps (statusesToMaps data) ]} g
    = inr (Graph (imap (restatus (merged_rows data g')) (nodes g')) (edges g)) /\
    edges g' = edges g /\
    (exists new, nodes g' = nodes g ++ new /\
                 Forall (fun n => exists s, s ∈ data /\ n = new_scan (StatusScanID s)) new) /\
    (forall s, s ∈ data -> scan_nodes (StatusScanID s) g' <> []) /\
    (forall id, scan_nodes id g <> [] -> scan_nodes id g' = scan_nodes id g) /\
    ((forall s, s ∈ data -> scan_nodes (StatusScanID s) g <> []) -> g' = g).
Proof.
  destruct (merge_phase data g) as (g' & Hrows & He & Hnew & Hall & Hst & Hsame).
  exists g'. split; [|done].
  unfold run_status_query. rewrite lookup_singleton_eq. simpl.
  rewrite statusesToMaps_rows, <- list_fmap_compose.
  change (for_rows _ ((VMap ∘ ToMap) <$> data) g)
    with (for_rows merge_scan_step (scan_row <$> data) g).
  rewrite Hrows. cbn [then_]. f_equal.
  change (fold_left _ (merged_rows data g') g')
    with (fold_left set_status_step (merged_rows data g') g').
  rewrite set_phase, He; [done|].
  unfold merged_rows. apply Forall_forall. intros [row n] Hin.
  apply list_elem_of_bind in Hin as (s & Hin & _).
  apply list_elem_of_fmap in Hin as (? & [= -> ->] & _). reflexivity.
Qed.

Lemma Forall2_imap_l {A} (P : A -> A -> Prop) (F : nat -> A -> A) (l : list A) :
  (forall i x, P (F i x) x) -> Forall2 P (imap F l) l.
Proof.
  revert F. induction l as [|x l IH]; intros F HF; simpl; constructor; [done|].
  apply IH. intros i y. apply HF.
Qed.

Lemma restatus_matches (t : list (value * nat)) (i : nat) (nd : node) (id : string) :
  node_matches "SecretScan" [("node_id", VStr id)] (restatus t i nd)
  = node_matches "SecretScan" [("node_id", VStr id)] nd.
Proof.
  unfold restatus. destruct (last_status i t); [|done].
  unfold node_matches, has_label. simpl. by rewrite lookup_insert_ne.
Qed.

Lemma scan_nodes_restatus (t : list (value * nat)) (g : graph) (es : list edge) (id : string) :
  scan_nodes id (Graph (imap (restatus t) (nodes g)) es) = scan_nodes id g.
Proof.
  unfold scan_nodes, match_nodes. simpl. apply find_nodes_from_ext.
  apply Forall2_imap_l. intros i nd. apply restatus_matches.
Qed.

Lemma elem_of_scan_nodes (id : string) (g : graph) (i : nat) :
  i ∈ scan_nodes id g <->
  exists nd, nodes g !! i = Some nd /\ has_label "SecretScan" nd = true /\
             nprops nd !! "node_id" = Some (VStr id).
Proof.
  unfold scan_nodes. rewrite elem_of_match_nodes.
  split; intros (nd & Hnd & H); exists nd; (split; [done|]).
  - unfold node_matches in H. simpl in H.
    apply andb_true_iff in H as [Hl Hv]. split; [done|].
    rewrite andb_true_r in Hv.
    destruct (nprops nd !! "node_id") as [[] |]; simpl in Hv; try done.
    by apply String.eqb_eq in Hv as ->.
  - destruct H as [Hl Hv]. unfold node_matches. simpl. rewrite Hl, Hv. simpl.
    by rewrite String.eqb_refl.
Qed.

Lemma scan_nodes_key (id id' : string) (g : graph) (i : nat) :
  i ∈ scan_nodes id g -> i ∈ scan_nodes id' g -> id = id'.
Proof.
  rewrite !elem_of_scan_nodes. intros (nd & Hnd & _ & Hk) (nd' & Hnd' & _ & Hk').
  congruence.
Qed.

Lemma last_status_row (i : nat) (row : value) (l : list nat) :
  last_status i ((fun n => (row, n)) <$> l)
  = if bool_decide (i ∈ l) then Some (prop row "scan_status") else None.
Proof.
  induction l as [|n l IH]; [done|].
  cbn [fmap list_fmap last_status]. change (list_fmap _ _ ?f l) with (f <$> l).
  rewrite IH. destruct (bool_decide_reflect (i ∈ l)) as [Hin|Hin].
  - rewrite bool_decide_eq_true_2; [done|]. by apply list_elem_of_further.
  - destruct (Nat.eqb_spec n i) as [->|Hne].
    + rewrite bool_decide_eq_true_2; [done|]. apply list_elem_of_here.
    + rewrite bool_decide_eq_false_2; [done|].
      intros [?|?]%elem_of_cons; congruence.
Qed.

Lemma last_status_merged_Some (i : nat) (data : list SecretScanStatus) (g : graph) (v : value) :
  last_status i (merged_rows data g) = Some v ->
  exists s, s ∈ data /\ i ∈ scan_nodes (StatusScanID s) g /\ v = VStr (ScanStatus s).
Proof.
  induction data as [|s data IH]; [done|].
  unfold merged_rows. rewrite bind_cons, last_status_app.
  fold (merged_rows data g).
  destruct (last_status i (merged_rows data g)) as [v'|] eqn:Hl.
  - intros [= <-]. destruct (IH eq_refl) as (s' & Hs' & Hi & Hv).
    exists s'. split; [by apply list_elem_of_further | done].
  - rewrite last_status_row. case_bool_decide; [|done].
    intros [= <-]. exists s. split; [apply list_elem_of_here|]. split; [done|].
    reflexivity.
Qed.

Lemma last_status_merged_last (i : nat) (pre post : list SecretScanStatus)
    (s : SecretScanStatus) (g : graph) :
  i ∈ scan_nodes (StatusScanID s) g ->
  (forall s', s' ∈ post -> StatusScanID s' <> StatusScanID s) ->
  last_status i (merged_rows (pre ++ s :: post) g) = Some (VStr (ScanStatus s)).
Proof.
  intros Hi Hpost. unfold merged_rows.
  rewrite bind_app, bind_cons, !last_status_app.
  fold (merged_rows post g).
  destruct (last_status i (merged_rows post g)) as [v|] eqn:Hl.
  - apply last_status_merged_Some in Hl as (s' & Hs' & Hi' & _).
    destruct (Hpost s' Hs'). by apply (scan_nodes_key _ _ g i).
  - rewrite last_status_row. by rewrite bool_decide_eq_true_2.
Qed.

(** [CommitFuncSecretScanStatus] with the store up. *)
Lemma CommitFuncSecretScanStatus_up (env : Env) (ns : string)
    (data : list SecretScanStatus) (w : world) (g' : graph) :
  store_up env ns -> data <> [] ->
  run_status_query {[ "batch" := batch_of_maps (statusesToMaps data) ]} (db w) = inr g' ->
  CommitFuncSecretScanStatus env ns data w
  = (Ok tt,
     World g'
       (trace w ++
        [ EvNeo4jClient; EvSession; EvBeginTransaction;
          EvRun status_query {[ "batch" := batch_of_maps (statusesToMaps data) ]};
          EvCommit; EvTxClose; EvSessionClose ])).
Proof.
  intros (Hc & Hb & Hr & Hm) Hdata Hrun.
  unfold CommitFuncSecretScanStatus, Neo4jClient, NewSession, BeginTransaction, Run,
    Commit, attempt, defer, bind, emit, or_fail, ret, fail, close_session, close_tx.
  simpl. rewrite Hc, Hb, Hr, Hm. simpl.
  destruct data as [|s data]; [done|]. simpl. rewrite Hrun. simpl.
  by rewrite <- !app_assoc.
Qed.

(** X7: within one batch of scan statuses the last row for a scan id
    wins.  With the store up, after a batch in which [s] is the last
    status for its [ScanID], a SecretScan node with that id exists and
    every SecretScan node with that id carries the [ScanStatus] of [s]
    as its [status], whatever rows came before. *)
Theorem statuses_last_write_wins (env : Env) (ns : string)
    (pre post : list SecretScanStatus) (s : SecretScanStatus) (w : world) :
  store_up env ns ->
  (forall s', s' ∈ post -> StatusScanID s' <> StatusScanID s) ->
  let '(r, w') := CommitFuncSecretScanStatus env ns (pre ++ s :: post) w in
  r = Ok tt /\
  scan_nodes (StatusScanID s) (db w') <> [] /\
  forall i, i ∈ scan_nodes (StatusScanID s) (db w') ->
            status_of i (db w') = Some (VStr (ScanStatus s)).
Proof.
  intros Hup Hpost.
  destruct (run_status_query_on_batch (pre ++ s :: post) (db w))
    as (g' & Hrun & He & _ & Hall & _ & _).
  rewrite (CommitFuncSecretScanStatus_up env ns _ w _ Hup) by
    (done || by destruct pre).
  split; [done|]. cbn [db]. rewrite scan_nodes_restatus. split.
  - apply Hall. apply elem_of_app. right. apply list_elem_of_here.
  - intros i Hi. unfold status_of. cbn [nodes]. rewrite list_lookup_imap.
    pose proof Hi as (nd & -> & _)%elem_of_scan_nodes. simpl.
    unfold restatus. rewrite (last_status_merged_last i pre post s g' Hi Hpost).
    simpl. by rewrite lookup_insert_eq.
Qed.

Lemma restatus_idemp (t : list (value * nat)) (i : nat) (nd : node) :
  restatus t i (restatus t i nd) = restatus t i nd.
Proof.
  unfold restatus. destruct (last_status i t); [|done].
  simpl. by rewrite insert_insert_eq.
Qed.

Lemma merged_rows_ext (data : list SecretScanStatus) (g1 g2 : graph) :
  (forall id, scan_nodes id g1 = scan_nodes id g2) ->
  merged_rows data g1 = merged_rows data g2.
Proof.
  intros H. unfold merged_rows. induction data as [|s data IH]; [done|].
  by rewrite !bind_cons, IH, H.
Qed.

(** X8: committing the same batch of scan statuses a second time
    changes nothing.  With the store up both times, the second call
    returns [nil] and leaves the database exactly as the first call
    left it: no node is added and no property changes. *)
Theorem statuses_commit_idempotent (env env' : Env) (ns : string)
    (data : list SecretScanStatus) (w : world) :
  store_up env ns -> store_up env' ns ->
  let w1 := (CommitFuncSecretScanStatus env ns data w).2 in
  (CommitFuncSecretScanStatus env' ns data w1).1 = Ok tt /\
  db (CommitFuncSecretScanStatus env' ns data w1).2 = db w1.
Proof.
  intros Hup Hup'. destruct data as [|s0 data0] eqn:Hdata.
  { unfold CommitFuncSecretScanStatus, Neo4jClient, attempt, bind, emit, or_fail.
    simpl. destruct Hup as [-> _], Hup' as [-> _]. done. }
  rewrite <- Hdata.
  assert (data <> []) as Hne by (by rewrite Hdata).
  destruct (run_status_query_on_batch data (db w))
    as (g' & Hrun & He & _ & Hall & _ & _).
  rewrite (CommitFuncSecretScanStatus_up env ns data w _ Hup Hne Hrun). cbn [snd].
  set (g1 := Graph (imap (restatus (merged_rows data g')) (nodes g')) (edges (db w))).
  destruct (run_status_query_on_batch data g1)
    as (g2 & Hrun2 & He2 & _ & _ & _ & Hsame).
  assert (g2 = g1) as ->.
  { apply Hsame. intros s Hs. unfold g1. rewrite scan_nodes_restatus. by apply Hall. }
  rewrite (CommitFuncSecretScanStatus_up env' ns data (World g1 _) _ Hup' Hne Hrun2).
  split; [done|]. cbn [snd db].
  rewrite (merged_rows_ext data g1 g') by (intros id; apply scan_nodes_restatus).
  unfold g1. cbn [nodes edges]. f_equal.
  apply list_eq. intros i. rewrite !list_lookup_imap.
  destruct (nodes g' !! i) as [nd|]; simpl; [|done]. by rewrite restatus_idemp.
Qed.

(** ** What a statement leaves alone *)

Section Keeps.
Context (may : list string -> string -> bool).

Lemma keeps_refl (g : graph) : keeps may g g.
Proof. split; [done|]. intros i n Hn. by exists n. Qed.

Lemma keeps_trans (g1 g2 g3 : graph) :
  keeps may g1 g2 -> keeps may g2 g3 -> keeps may g1 g3.
Proof.
  intros [He1 Hn1] [He2 Hn2]. split; [by etrans|].
  intros i n Hn. destruct (Hn1 i n Hn) as (n' & Hn' & Hl & Hp).
  destruct (Hn2 i n' Hn') as (n'' & Hn'' & Hl' & Hp').
  exists n''. split; [done|]. split; [congruence|].
  intros k Hk. rewrite Hp' by (by rewrite Hl). by apply Hp.
Qed.

Lemma labelled_keeps (lbl : string) (i : nat) (g g' : graph) :
  keeps may g g' -> labelled lbl i g -> labelled lbl i g'.
Proof.
  intros [_ Hn] (n & Hi & Hl). destruct (Hn i n Hi) as (n' & Hi' & Hl' & _).
  exists n'. split; [done|]. unfold has_label in *. by rewrite Hl'.
Qed.

Lemma merge_node_keeps (lbl : string) (pat : list (string * value))
    (g g' : graph) (out : list nat) :
  merge_node lbl pat g = inr (g', out) ->
  keeps may g g' /\ Forall (fun i => labelled lbl i g') out.
Proof.
  unfold merge_node. destruct (existsb _ pat); [done|].
  destruct (match_nodes lbl pat g) as [|i l] eqn:Hm; intros [= <- <-].
  - split.
    + split; [done|]. intros i n Hi. exists n. split; [|done].
      simpl. by apply lookup_app_l_Some.
    + constructor; [|done]. eexists. split.
      * simpl. rewrite lookup_app_r by done. by rewrite Nat.sub_diag.
      * unfold has_label. simpl. by rewrite String.eqb_refl.
  - split; [apply keeps_refl|]. rewrite <- Hm.
    apply Forall_forall. intros j (n & Hn & Hmatch)%elem_of_match_nodes.
    exists n. split; [done|]. unfold node_matches in Hmatch.
    by apply andb_true_iff in Hmatch as [? _].
Qed.

Lemma merge_edge_keeps (a : nat) (ty : string) (b : nat) (g : graph) :
  keeps may g (merge_edge a ty b g).1.
Proof.
  unfold merge_edge. destruct (count_edges a ty b g); [|apply keeps_refl].
  split; [by apply prefix_app_r|]. intros i n Hi. by exists n.
Qed.

Lemma set_plus_keeps (lbl : string) (i : nat) (v : value) (g : graph) :
  labelled lbl i g ->
  (forall labels k, existsb (String.eqb lbl) labels = true -> may labels k = true) ->
  keeps may g (set_plus i v g).
Proof.
  intros (n & Hi & Hl) Hmay.
  assert (forall m, keeps may g
            (Graph (alter (fun n => Node (nlabels n) (plus_props m (nprops n))) i (nodes g))
                   (edges g))) as Halter.
  { intros m. split; [done|]. intros j nj Hj. simpl.
    destruct (decide (i = j)) as [->|Hne].
    - rewrite list_lookup_alter_eq, Hj. simpl. eexists. split; [done|]. split; [done|].
      intros k Hk. simpl. rewrite Hi in Hj. injection Hj as <-.
      rewrite Hmay in Hk; done.
    - rewrite list_lookup_alter_ne by done. by exists nj. }
  destruct v; try apply keeps_refl; apply Halter.
Qed.

(** A clause whose rows each keep the graph keeps it, and what holds of a
    row's output in the graph it left holds at the end. *)
Lemma for_rows_keeps {A B : Type} (Qin : graph -> A -> Prop) (Qout : graph -> B -> Prop)
    (f : A -> graph -> error + (graph * list B)) :
  (forall g g' x, keeps may g g' -> Qin g x -> Qin g' x) ->
  (forall g g' y, keeps may g g' -> Qout g y -> Qout g' y) ->
  (forall x g g' out, Qin g x -> f x g = inr (g', out) ->
                      keeps may g g' /\ Forall (Qout g') out) ->
  forall rows g g' out,
    Forall (Qin g) rows -> for_rows f rows g = inr (g', out) ->
    keeps may g g' /\ Forall (Qout g') out.
Proof.
  intros Hin Hout Hf rows. induction rows as [|x rows IH]; intros g g' out Hrows; simpl.
  - intros [= <- <-]. split; [apply keeps_refl | done].
  - apply Forall_cons in Hrows as [Hx Hrows].
    destruct (f x g) as [e|[g1 out1]] eqn:Hfx; [done|].
    destruct (Hf x g g1 out1 Hx Hfx) as [Hk1 Ho1].
    destruct (for_rows f rows g1) as [e|[g2 out2]] eqn:Hrest; [done|].
    intros [= <- <-].
    destruct (IH g1 g2 out2) as [Hk2 Ho2]; [|done|].
    { eapply Forall_impl; [exact Hrows|]. intros y. by apply Hin. }
    split; [by eapply keeps_trans|]. apply Forall_app. split; [|done].
    eapply Forall_impl; [exact Ho1|]. intros y. by apply Hout.
Qed.

End Keeps.

Lemma fold_keeps {A : Type} (may : list string -> string -> bool)
    (step : graph -> A -> graph) (Q : graph -> A -> Prop) (t : list A) (g : graph) :
  (forall g g' x, keeps may g g' -> Q g x -> Q g' x) ->
  (forall g x, Q g x -> keeps may g (step g x)) ->
  Forall (Q g) t -> keeps may g (fold_left step t g).
Proof.
  intros Hmono Hstep. revert g. induction t as [|x t IH]; intros g Ht; simpl.
  - apply keeps_refl.
  - apply Forall_cons in Ht as [Hx Ht].
    eapply keeps_trans; [by apply Hstep|]. apply IH.
    eapply Forall_impl; [exact Ht|]. intros y. apply Hmono. by apply Hstep.
Qed.

Lemma secrets_may_Rule (labels : list string) (k : string) :
  existsb (String.eqb "Rule") labels = true -> secrets_may labels k = true.
Proof. unfold secrets_may. by intros ->. Qed.

Lemma secrets_may_Secret (labels : list string) (k : string) :
  existsb (String.eqb "Secret") labels = true -> secrets_may labels k = true.
Proof. unfold secrets_may. intros ->. by rewrite orb_true_r. Qed.

Lemma run_secrets_query_keeps (now : Z) (params : pmap) (g g' : graph) :
  run_secrets_query now params g = inr g' -> keeps secrets_may g g'.
Proof.
  unfold run_secrets_query.
  set (t0 := _ <$> unwind _).
  (* MERGE (r:Rule ...) *)
  destruct (for_rows _ t0 g) as [e|[g1 t1]] eqn:H1; [done|]. cbn [then_].
  apply (for_rows_keeps secrets_may (fun _ _ => True)
           (fun g (x : value * value * nat) => labelled "Rule" x.2 g)) in H1;
    [ | done | intros ? ? ?; apply labelled_keeps | | by apply Forall_true ].
  2:{ intros [rule secret] g0 g0' out _ Hf.
      destruct (merge_node "Rule" _ g0) as [e|[g0'' rs]] eqn:Hm; [done|].
      simpl in Hf. injection Hf as <- <-.
      apply (merge_node_keeps secrets_may) in Hm as [Hk Hrs]. split; [done|].
      apply Forall_fmap. eapply Forall_impl; [exact Hrs|]. done. }
  destruct H1 as [K1 Q1].
  (* SET r += rule *)
  set (g2 := fold_left _ t1 g1).
  assert (keeps secrets_may g1 g2) as K2.
  { apply (fold_keeps secrets_may _ (fun g (x : value * value * nat) => labelled "Rule" x.2 g));
      [intros ? ? ?; apply labelled_keeps| |done].
    intros g0 [[rule secret] r] Hr. simpl in Hr.
    by apply (set_plus_keeps secrets_may "Rule"); [|apply secrets_may_Rule]. }
  (* MERGE (n:Secret ...) *)
  destruct (for_rows _ _ g2) as [e|[g3 t3]] eqn:H3; [done|]. cbn [then_].
  apply (for_rows_keeps secrets_may (fun _ _ => True)
           (fun g (x : value * nat * nat) => labelled "Secret" x.2 g)) in H3;
    [ | done | intros ? ? ?; apply labelled_keeps | | by apply Forall_true ].
  2:{ intros [row r] g0 g0' out _ Hf.
      destruct (merge_node "Secret" _ g0) as [e|[g0'' rs]] eqn:Hm; [done|].
      simpl in Hf. injection Hf as <- <-.
      apply (merge_node_keeps secrets_may) in Hm as [Hk Hrs]. split; [done|].
      apply Forall_fmap. eapply Forall_impl; [exact Hrs|]. done. }
  destruct H3 as [K3 Q3].
  (* MERGE (n)-[:IS]->(r) *)
  destruct (for_rows _ t3 g3) as [e|[g4 t4]] eqn:H4; [done|]. cbn [then_].
  apply (for_rows_keeps secrets_may
           (fun g (x : value * nat * nat) => labelled "Secret" x.2 g)
           (fun g (x : value * nat * nat) => labelled "Secret" x.2 g)) in H4;
    [ | intros ? ? ?; apply labelled_keeps | intros ? ? ?; apply labelled_keeps | | done ].
  2:{ intros [[row r] n] g0 g0' out Hn Hf. simpl in Hn.
      pose proof (merge_edge_keeps secrets_may n "IS" r g0) as Hk.
      destruct (merge_edge n "IS" r g0) as [g0'' c]. injection Hf as <- <-.
      split; [done|]. apply Forall_replicate. by eapply labelled_keeps. }
  destruct H4 as [K4 Q4].
  (* MERGE (m:SecretScan ...) *)
  destruct (for_rows _ t4 g4) as [e|[g5 t5]] eqn:H5; [done|]. cbn [then_].
  apply (for_rows_keeps secrets_may
           (fun g (x : value * nat * nat) => labelled "Secret" x.2 g)
           (fun g (x : nat * nat * value) => labelled "Secret" x.1.1 g)) in H5;
    [ | intros ? ? ?; apply labelled_keeps | intros ? ? ?; apply labelled_keeps | | done ].
  2:{ intros [[row r] n] g0 g0' out Hn Hf. simpl in Hn.
      destruct (merge_node "SecretScan" _ g0) as [e|[g0'' ms]] eqn:Hm; [done|].
      simpl in Hf. injection Hf as <- <-.
      apply (merge_node_keeps secrets_may) in Hm as [Hk _]. split; [done|].
      apply Forall_fmap, Forall_forall. intros m _. simpl. by eapply labelled_keeps. }
  destruct H5 as [K5 Q5].
  (* MATCH (l:Node ...) *)
  set (t6 := t5 ≫= _).
  assert (Forall (fun x : nat * nat * value * nat => labelled "Secret" x.1.1.1 g5) t6) as Q6.
  { apply Forall_forall. intros [[[n m] row] l] Hin.
    apply list_elem_of_bind in Hin as ([[n' m'] row'] & Hin & Hin5).
    apply list_elem_of_fmap in Hin as (l' & [= -> -> -> ->] & _).
    by apply (proj1 (Forall_forall _ _) Q5 _ Hin5). }
  (* MERGE (m) -[:DETECTED]-> (n) *)
  destruct (for_rows _ t6 g5) as [e|[g7 t7]] eqn:H7; [done|]. cbn [then_].
  apply (for_rows_keeps secrets_may
           (fun g (x : nat * nat * value * nat) => labelled "Secret" x.1.1.1 g)
           (fun g (x : nat * nat * value * nat) => labelled "Secret" x.1.1.1 g)) in H7;
    [ | intros ? ? ?; apply labelled_keeps | intros ? ? ?; apply labelled_keeps | | done ].
  2:{ intros [[[n m] row] l] g0 g0' out Hn Hf. simpl in Hn.
      pose proof (merge_edge_keeps secrets_may m "DETECTED" n g0) as Hk.
      destruct (merge_edge m "DETECTED" n g0) as [g0'' c]. injection Hf as <- <-.
      split; [done|]. apply Forall_replicate. by eapply labelled_keeps. }
  destruct H7 as [K7 Q7].
  (* MERGE (m) -[:SCANNED]-> (l) *)
  destruct (for_rows _ t7 g7) as [e|[g8 t8]] eqn:H8; [done|]. cbn [then_].
  apply (for_rows_keeps secrets_may
           (fun g (x : nat * nat * value * nat) => labelled "Secret" x.1.1.1 g)
           (fun g (x : nat * nat * value * nat) => labelled "Secret" x.1.1.1 g)) in H8;
    [ | intros ? ? ?; apply labelled_keeps | intros ? ? ?; apply labelled_keeps | | done ].
  2:{ intros [[[n m] row] l] g0 g0' out Hn Hf. simpl in Hn.
      pose proof (merge_edge_keeps secrets_may m "SCANNED" l g0) as Hk.
      destruct (merge_edge m "SCANNED" l g0) as [g0'' c]. injection Hf as <- <-.
      split; [done|]. apply Forall_replicate. by eapply labelled_keeps. }
  destruct H8 as [K8 Q8].
  (* SET n += row *)
  intros [= <-].
  assert (keeps secrets_may g8 (fold_left
            (fun g '(n, _, row, _) => set_plus n row g) t8 g8)) as K9.
  { apply (fold_keeps secrets_may _
             (fun g (x : nat * nat * value * nat) => labelled "Secret" x.1.1.1 g));
      [intros ? ? ?; apply labelled_keeps| |done].
    intros g0 [[[n m] row] l] Hn. simpl in Hn.
    by apply (set_plus_keeps secrets_may "Secret"); [|apply secrets_may_Secret]. }
  repeat (eapply keeps_trans; [eassumption|]). apply keeps_refl.
Qed.

(** ** Every way a commit can end *)

(** Every way [CommitFuncSecrets] can end. *)
Lemma CommitFuncSecrets_cases (env : Env) (ns : string) (data : list Secret) (w : world) :
  let q := EvRun secrets_query (secrets_params data) in
  let out := run_secrets_query (clock env) (secrets_params data) (db w) in
  CommitFuncSecrets env ns data w
  = match client_err env ns with
    | Some e => (Err e, World (db w) (trace w ++ [EvNeo4jClient]))
    | None =>
      match begin_err env with
      | Some e =>
          (Err e, World (db w) (trace w ++ [EvNeo4jClient; EvSession; EvBeginTransaction;
                                            EvSessionClose]))
      | None =>
        match run_err env, out with
        | Some e, _ | None, inl e =>
            (Err e, World (db w) (trace w ++ [EvNeo4jClient; EvSession; EvBeginTransaction;
                                              q; EvTxClose; EvSessionClose]))
        | None, inr g' =>
          match commit_err env with
          | Some e =>
              (Err e, World (db w) (trace w ++ [EvNeo4jClient; EvSession; EvBeginTransaction;
                                                q; EvCommit; EvTxClose; EvSessionClose]))
          | None =>
              (Ok tt, World g' (trace w ++ [EvNeo4jClient; EvSession; EvBeginTransaction;
                                            q; EvCommit; EvTxClose; EvSessionClose]))
          end
        end
      end
    end.
Proof.
  unfold CommitFuncSecrets, Neo4jClient, NewSession, BeginTransaction, Run,
    Commit, defer, bind, emit, or_fail, ret, fail, close_session, close_tx, secrets_params.
  simpl.
  destruct (client_err env ns); simpl; [done|].
  destruct (begin_err env); simpl; [by rewrite <- !app_assoc|].
  destruct (run_err env); simpl; [by rewrite <- !app_assoc|].
  destruct (run_secrets_query _ _ (db w)); simpl; [by rewrite <- !app_assoc|].
  destruct (commit_err env); simpl; by rewrite <- !app_assoc.
Qed.

(** Every way [CommitFuncSecretScanStatus] can end on a batch with
    entries. *)
Lemma CommitFuncSecretScanStatus_cases (env : Env) (ns : string)
    (data : list SecretScanStatus) (w : world) :
  data <> [] ->
  let q := EvRun status_query (status_params data) in
  let out := run_status_query (status_params data) (db w) in
  CommitFuncSecretScanStatus env ns data w
  = match client_err env ns with
    | Some e => (Err e, World (db w) (trace w ++ [EvNeo4jClient]))
    | None =>
      match begin_err env with
      | Some e =>
          (Err e, World (db w) (trace w ++ [EvNeo4jClient; EvSession; EvBeginTransaction;
                                            EvSessionClose]))
      | None =>
        match run_err env, out with
        | Some e, _ | None, inl e =>
            (Err e, World (db w) (trace w ++ [EvNeo4jClient; EvSession; EvBeginTransaction;
                                              q; EvTxClose; EvSessionClose]))
        | None, inr g' =>
          match commit_err env with
          | Some e =>
              (Err e, World (db w) (trace w ++ [EvNeo4jClient; EvSession; EvBeginTransaction;
                                                q; EvCommit; EvTxClose; EvSessionClose]))
          | None =>
              (Ok tt, World g' (trace w ++ [EvNeo4jClient; EvSession; EvBeginTransaction;
                                            q; EvCommit; EvTxClose; EvSessionClose]))
          end
        end
      end
    end.
Proof.
  intros Hne.
  unfold CommitFuncSecretScanStatus, Neo4jClient, NewSession, BeginTransaction, Run,
    Commit, attempt, defer, bind, emit, or_fail, ret, fail, close_session, close_tx,
    status_params.
  destruct data as [|s data]; [done|]. simpl.
  destruct (client_err env ns); simpl; [done|].
  destruct (begin_err env); simpl; [by rewrite <- !app_assoc|].
  destruct (run_err env); simpl; [by rewrite <- !app_assoc|].
  destruct (run_status_query _ (db w)); simpl; [by rewrite <- !app_assoc|].
  destruct (commit_err env); simpl; by rewrite <- !app_assoc.
Qed.

Ltac in_calls :=
  solve [ repeat first [ apply list_elem_of_here | apply list_elem_of_further ] ].

Ltac not_in_calls H :=
  repeat (apply elem_of_cons in H as [H|H]; [discriminate H|]);
  by apply not_elem_of_nil in H.

Ltac commit_case :=
  cbv beta iota; cbn [db trace];
  split; [done|]; eexists; split; [reflexivity|];
  split; [first [done | intros H; not_in_calls H]|];
  split; [first [intros _ _; in_calls | intros H; not_in_calls H | intros _ ?; done]|];
  first [done | intros; in_calls].

(** X2: both commit functions are all or nothing and release what they
    open, whatever the store does.  A call that does not return [nil]
    leaves the database as it was; the calls it makes are appended to
    the trace; once a session was opened the last call is
    [session.Close()]; once a transaction was begun it is closed; and a
    call that returns [nil] has committed (for the scan statuses: unless
    the batch was empty, when nothing is opened at all). *)
Theorem commits_are_atomic_and_release (env : Env) (ns : string) (w : world) :
  (forall data,
     let '(r, w') := CommitFuncSecrets env ns data w in
     (r <> Ok tt -> db w' = db w) /\
     exists calls,
       trace w' = trace w ++ calls /\
       (EvSession ∈ calls -> last calls = Some EvSessionClose) /\
       (EvBeginTransaction ∈ calls -> begin_err env = None -> EvTxClose ∈ calls) /\
       (r = Ok tt -> EvCommit ∈ calls)) /\
  (forall data,
     let '(r, w') := CommitFuncSecretScanStatus env ns data w in
     (r <> Ok tt -> db w' = db w) /\
     exists calls,
       trace w' = trace w ++ calls /\
       (EvSession ∈ calls -> last calls = Some EvSessionClose) /\
       (EvBeginTransaction ∈ calls -> begin_err env = None -> EvTxClose ∈ calls) /\
       (r = Ok tt -> data <> [] -> EvCommit ∈ calls)).
Proof.
  split; intros data.
  - rewrite CommitFuncSecrets_cases. cbv zeta.
    destruct (client_err env ns); [commit_case|].
    destruct (begin_err env); [commit_case|].
    destruct (run_err env); [commit_case|].
    destruct (run_secrets_query _ _ (db w)); [commit_case|].
    destruct (commit_err env); commit_case.
  - destruct (decide (data = [])) as [->|Hne].
    { unfold CommitFuncSecretScanStatus, Neo4jClient, attempt, bind, emit, or_fail.
      simpl. destruct (client_err env ns); commit_case. }
    rewrite CommitFuncSecretScanStatus_cases by done. cbv zeta.
    destruct (client_err env ns); [commit_case|].
    destruct (begin_err env); [commit_case|].
    destruct (run_err env); [commit_case|].
    destruct (run_status_query _ (db w)); [commit_case|].
    destruct (commit_err env); commit_case.
Qed.



(** X3: [CommitFuncSecrets] only adds to the graph and rewrites nothing
    but Rule and Secret nodes.  Whatever the batch and whatever the
    store does, every relationship that was there is still there, every
    node keeps its id and its labels, and a node that is neither a Rule
    nor a Secret keeps every one of its properties. *)
Theorem CommitFuncSecrets_keeps_the_graph (env : Env) (ns : string)
    (data : list Secret) (w : world) :
  keeps secrets_may (db w) (db (CommitFuncSecrets env ns data w).2).
Proof.
  rewrite CommitFuncSecrets_cases. cbv zeta.
  destruct (client_err env ns); [apply keeps_refl|].
  destruct (begin_err env); [apply keeps_refl|].
  destruct (run_err env); [apply keeps_refl|].
  destruct (run_secrets_query _ _ (db w)) as [e|g'] eqn:Hrun; [apply keeps_refl|].
  destruct (commit_err env); [apply keeps_refl|].
  by apply run_secrets_query_keeps in Hrun.
Qed.


(** X5: unlike [CommitFuncSecretScanStatus], [CommitFuncSecrets] has no
    guard for the empty batch.  With the store up, a call with no secret
    still takes a client, opens a session and a transaction, runs the
    statement with an empty [$batch] and commits; the database is left
    as it was and the call returns [nil]. *)
Theorem CommitFuncSecrets_empty_runs_the_statement (env : Env) (ns : string) (w : world) :
  store_up env ns ->
  CommitFuncSecrets env ns [] w
  = (Ok tt, World (db w) (trace w ++ commit_calls secrets_query (secrets_params []))).
Proof.
  intros (Hc & Hb & Hr & Hm). rewrite CommitFuncSecrets_cases. cbv zeta.
  rewrite Hc, Hb, Hr, Hm.
  assert (run_secrets_query (clock env) (secrets_params []) (db w) = inr (db w)) as ->.
  { unfold run_secrets_query, secrets_params. rewrite lookup_singleton_eq. reflexivity. }
  done.
Qed.

(** ** The secrets statement goes through *)

Lemma for_rows_total {A B : Type} (Qin : A -> Prop) (Qout : B -> Prop)
    (f : A -> graph -> error + (graph * list B)) :
  (forall x g, Qin x -> exists g' out, f x g = inr (g', out) /\ Forall Qout out) ->
  forall rows g, Forall Qin rows ->
    exists g' out, for_rows f rows g = inr (g', out) /\ Forall Qout out.
Proof.
  intros Hf rows. induction rows as [|x rows IH]; intros g Hrows; simpl.
  - by exists g, [].
  - apply Forall_cons in Hrows as [Hx Hrows].
    destruct (Hf x g Hx) as (g1 & out1 & -> & Ho1).
    destruct (IH g1 Hrows) as (g2 & out2 & -> & Ho2).
    exists g2, (out1 ++ out2). split; [done|]. by apply Forall_app.
Qed.

Lemma merge_node_total (lbl : string) (pat : list (string * value)) (g : graph) :
  existsb (fun kv => is_nil kv.2) pat = false ->
  exists g' out, merge_node lbl pat g = inr (g', out).
Proof.
  intros Hpat. unfold merge_node. rewrite Hpat.
  destruct (match_nodes lbl pat g); by eexists _, _.
Qed.

Lemma batch_rows (data : list Secret) :
  (fun row => (prop row "Rule", prop row "Secret"))
    <$> unwind (default VNil (secrets_params data !! "batch"))
  = (fun i => (rule_of i, secret_of i)) <$> data.
Proof.
  unfold secrets_params. rewrite lookup_singleton_eq. simpl.
  rewrite secretsToMaps_rows, <- !list_fmap_compose.
  apply list_fmap_ext. intros _ i _. reflexivity.
Qed.

Lemma run_secrets_query_total (now : Z) (data : list Secret) (g : graph) :
  exists g', run_secrets_query now (secrets_params data) g = inr g'.
Proof.
  unfold run_secrets_query. rewrite batch_rows.
  (* MERGE (r:Rule ...) *)
  edestruct (for_rows_total
               (fun x : value * value => exists i, x = (rule_of i, secret_of i))
               (fun x : value * value * nat => exists i, x.1.2 = secret_of i))
    as (g1 & t1 & -> & Q1); [| |cbn [then_]].
  { intros _ g0 [i ->].
    destruct (merge_node_total "Rule" [("node_id", prop (rule_of i) "id")] g0)
      as (g0' & out & ->); [reflexivity|].
    eexists _, _. split; [reflexivity|]. apply Forall_fmap, Forall_forall.
    intros r _. by exists i. }
  { apply Forall_fmap, Forall_forall. intros i _. by exists i. }
  (* MERGE (n:Secret ...) *)
  edestruct (for_rows_total
               (fun x : value * nat => exists i, x.1 = secret_of i)
               (fun x : value * nat * nat => exists i, x.1.1 = secret_of i))
    as (g3 & t3 & -> & Q3); [| |cbn [then_]].
  { intros [row r] g0 [i Hi]. simpl in Hi. subst row.
    destruct (merge_node_total "Secret" [("node_id", prop (secret_of i) "rule_id")] g0)
      as (g0' & out & ->); [reflexivity|].
    eexists _, _. split; [reflexivity|]. apply Forall_fmap, Forall_forall.
    intros n _. by exists i. }
  { apply Forall_fmap. eapply Forall_impl; [exact Q1|].
    intros [[rule secret] r] [i Hi]. by exists i. }
  (* MERGE (n)-[:IS]->(r) *)
  edestruct (for_rows_total
               (fun x : value * nat * nat => exists i, x.1.1 = secret_of i)
               (fun x : value * nat * nat => exists i, x.1.1 = secret_of i))
    as (g4 & t4 & -> & Q4); [|exact Q3|cbn [then_]].
  { intros [[row r] n] g0 Hi.
    destruct (merge_edge n "IS" r g0) as [g0' c].
    eexists _, _. split; [reflexivity|]. by apply Forall_replicate. }
  (* MERGE (m:SecretScan ...) *)
  edestruct (for_rows_total
               (fun x : value * nat * nat => exists i, x.1.1 = secret_of i)
               (fun _ : nat * nat * value => True))
    as (g5 & t5 & -> & _); [|exact Q4|cbn [then_]].
  { intros [[row r] n] g0 [i Hi]. simpl in Hi. subst row.
    destruct (merge_node_total "SecretScan"
                [("node_id", prop (secret_of i) "scan_id");
                 ("host_name", prop (secret_of i) "host_name");
                 ("time_stamp", VInt now)] g0)
      as (g0' & out & ->); [reflexivity|].
    eexists _, _. split; [reflexivity|]. by apply Forall_true. }
  (* MERGE (m) -[:DETECTED]-> (n) *)
  edestruct (for_rows_total (fun _ : nat * nat * value * nat => True)
               (fun _ : nat * nat * value * nat => True))
    as (g7 & t7 & -> & _); [|by apply Forall_true|cbn [then_]].
  { intros [[[n m] row] l] g0 _.
    destruct (merge_edge m "DETECTED" n g0) as [g0' c].
    eexists _, _. split; [reflexivity|]. by apply Forall_true. }
  (* MERGE (m) -[:SCANNED]-> (l) *)
  edestruct (for_rows_total (fun _ : nat * nat * value * nat => True)
               (fun _ : nat * nat * value * nat => True))
    as (g8 & t8 & -> & _); [|by apply Forall_true|cbn [then_]].
  { intros [[[n m] row] l] g0 _.
    destruct (merge_edge m "SCANNED" l g0) as [g0' c].
    eexists _, _. split; [reflexivity|]. by apply Forall_true. }
  by eexists.
Qed.

(** X6: with the store up, [CommitFuncSecrets] returns [nil] for every
    batch: the rows built by [secretsToMaps] always have the shape the
    statement reads (a Rule map with an [id], a Secret map with
    [rule_id], [scan_id] and [host_name]), so the statement goes through,
    its result is committed, and the calls made are the seven of a
    commit, in order. *)
Theorem CommitFuncSecrets_succeeds_when_up (env : Env) (ns : string)
    (data : list Secret) (w : world) :
  store_up env ns ->
  exists g',
    run_secrets_query (clock env) (secrets_params data) (db w) = inr g' /\
    CommitFuncSecrets env ns data w
    = (Ok tt, World g' (trace w ++ commit_calls secrets_query (secrets_params data))).
Proof.
  intros (Hc & Hb & Hr & Hm).
  destruct (run_secrets_query_total (clock env) data (db w)) as [g' Hrun].
  exists g'. split; [done|].
  rewrite CommitFuncSecrets_cases. cbv zeta. by rewrite Hc, Hb, Hr, Hm, Hrun.
Qed.

(** ** The statements above, at the sample data *)

Lemma CommitFuncSecrets_empty_runs_the_statement_witness :
  store_up (healthy 0) "tenant-a" /\
  CommitFuncSecrets (healthy 0) "tenant-a" [] with_host
  = (Ok tt, World (db with_host) (commit_calls secrets_query (secrets_params []))).
Proof.
  split; [repeat split|].
  apply (CommitFuncSecrets_empty_runs_the_statement (healthy 0) "tenant-a" with_host).
  repeat split.
Defined.

Lemma CommitFuncSecrets_succeeds_when_up_witness :
  exists g',
    run_secrets_query 1700000000000 (secrets_params [secret1]) (db with_host) = inr g' /\
    CommitFuncSecrets (healthy 1700000000000) "tenant-a" [secret1] with_host
    = (Ok tt, World g' (commit_calls secrets_query (secrets_params [secret1]))).
Proof.
  apply (CommitFuncSecrets_succeeds_when_up (healthy 1700000000000) "tenant-a"
           [secret1] with_host).
  repeat split.
Defined.

Lemma statuses_last_write_wins_witness :
  let '(r, w') :=
    CommitFuncSecretScanStatus (healthy 0) "tenant-a" [status1; status1_failed] fresh in
  r = Ok tt /\
  scan_nodes "scan1" (db w') <> [] /\
  forall i, i ∈ scan_nodes "scan1" (db w') -> status_of i (db w') = Some (VStr "ERROR").
Proof.
  apply (statuses_last_write_wins (healthy 0) "tenant-a" [status1] [] status1_failed fresh).
  - repeat split.
  - intros s' Hs'. inversion Hs'.
Defined.

Lemma statuses_commit_idempotent_witness :
  let w1 := (CommitFuncSecretScanStatus (healthy 0) "tenant-a" [status1] fresh).2 in
  (CommitFuncSecretScanStatus (healthy 5) "tenant-a" [status1] w1).1 = Ok tt /\
  db (CommitFuncSecretScanStatus (healthy 5) "tenant-a" [status1] w1).2 = db w1.
Proof.
  apply (statuses_commit_idempotent (healthy 0) (healthy 5) "tenant-a" [status1] fresh);
    repeat split.
Defined.

End IngestersProperties.

(** * Further properties of the reporters *)

Module LookupProperties.
Import Neo4j Lookup LookupSamples LookupTerms LookupSpec.
Local Open Scope string_scope.
Local Open Scope list_scope.

(** ** Decoding a record *)

Lemma positional_keys (fields : list string) (i : nat) (vals : list value)
    (m0 m : pmap) (k : string) :
  positional fields i vals m0 = Ok m -> k ∉ fields -> m !! k = m0 !! k.
Proof.
  revert i m0. induction fields as [|f fields IH]; intros i m0; simpl.
  - by intros [= <-].
  - destruct (vals !! i) as [v|]; [|done]. intros Hpos Hk.
    apply not_elem_of_cons in Hk as [Hkf Hk].
    rewrite (IH _ _ Hpos Hk). by rewrite lookup_insert_ne.
Qed.

Lemma positional_enough (fields : list string) (i : nat) (vals : list value) (m0 : pmap) :
  (i + length fields <= length vals)%nat ->
  exists m, positional fields i vals m0 = Ok m.
Proof.
  revert i m0. induction fields as [|f fields IH]; intros i m0 Hlen; cbn [positional].
  - by eexists.
  - cbn [length] in Hlen. destruct (lookup_lt_is_Some_2 vals i) as [v ->]; [lia|].
    apply IH. lia.
Qed.

Lemma record_map_no_node_id (fields : list string) (rec : record) (m : pmap) :
  fields <> [] -> "node_id" ∉ fields ->
  record_map fields rec = Ok (Some m) -> m !! "node_id" = None.
Proof.
  intros Hne Hk. unfold record_map, primary_map.
  destruct fields as [|f fields]; [done|]. cbn [length Nat.eqb].
  destruct (positional (f :: fields) 0 (Values rec) ∅) as [m0| |] eqn:Hpos; try done.
  destruct (Get rec "e").1; simpl; try done.
  - intros [= <-]. by rewrite (positional_keys _ _ _ _ _ _ Hpos Hk).
  - intros [= <-]. rewrite overlay_fold_lookup. rewrite decide_True by done.
    by rewrite (positional_keys _ _ _ _ _ _ Hpos Hk).
Qed.

(** The entities [map_records] returns, with the maps they were decoded
    from. *)
Lemma map_records_Ok {T} `{Decodable T} (fields : list string)
    (recs : list record) (res out : list T) :
  (map_records fields recs res).1 = Ok out ->
  exists ms : list pmap,
    out = res ++ (FromMap <$> ms) /\
    Forall (fun m => exists rec, rec ∈ recs /\ record_map fields rec = Ok (Some m)) ms.
Proof.
  revert res. induction recs as [|rec recs IH]; intros res; simpl.
  - intros [= <-]. exists []. by rewrite app_nil_r.
  - destruct (record_map fields rec) as [[m|]|e|msg] eqn:Hrec.
    + intros Ho. destruct (IH _ Ho) as (ms & -> & Hms).
      exists (m :: ms). split; [by rewrite <- app_assoc|]. constructor.
      * exists rec. split; [apply list_elem_of_here | done].
      * eapply Forall_impl; [exact Hms|]. intros m' (rec' & ? & ?).
        exists rec'. split; [by apply list_elem_of_further | done].
    + destruct (map_records fields recs res) as [r tr] eqn:Hrest. simpl.
      intros ->. destruct (IH res) as (ms & -> & Hms); [by rewrite Hrest|].
      exists ms. split; [done|].
      eapply Forall_impl; [exact Hms|]. intros m' (rec' & ? & ?).
      exists rec'. split; [by apply list_elem_of_further | done].
    + done.
    + done.
Qed.

Lemma getGenericDirectNodeReport_maps (store : Store) T `{Cypherable T}
    (filter : LookupFilter) (res : list T) (tr : list event) :
  getGenericDirectNodeReport store T filter = (Ok res, tr) ->
  exists ms : list pmap,
    res = FromMap <$> ms /\
    Forall (fun m => exists rec, record_map (InFieldFilter filter) rec = Ok (Some m)) ms.
Proof.
  unfold getGenericDirectNodeReport, Neo4jClient, Session, BeginTransaction,
    Run, Collect.
  destruct (client_err store), (session_err store), (begin_err store);
    simpl; try done.
  destruct (answer store _ _) as [e|e|recs]; simpl; try done.
  destruct (map_records (InFieldFilter filter) recs []) as [r tr'] eqn:Hmap; simpl.
  intros [= -> <-].
  destruct (map_records_Ok (T:=T) (InFieldFilter filter) recs [] res) as (ms & -> & Hms).
  { by rewrite Hmap. }
  exists ms. split; [done|]. eapply Forall_impl; [exact Hms|].
  intros m (rec & _ & ?). by exists rec.
Qed.

(** ** One query, from open to close *)

Section Lookups.
Context (store : Store).

Lemma map_records_trace {T} `{Decodable T} (fields : list string)
    (recs : list record) (res : list T) :
  Forall (fun e => is_warning e = true) (map_records fields recs res).2.
Proof.
  revert res. induction recs as [|rec recs IH]; intros res; simpl; [done|].
  destruct (record_map fields rec) as [[m|]|e|msg]; simpl; try done.
  specialize (IH res). destruct (map_records fields recs res) as [r tr]. simpl in *.
  by constructor.
Qed.

Lemma decode_m_spec {T} `{Decodable T} (recs : list record) (res : list T) :
  (decode_m recs res).1 = Ok (res ++ omap decode_one recs) /\
  Forall (fun e => is_warning e = true) (decode_m recs res).2 /\
  (length (decode_m recs res).2 + length (omap (decode_one (T:=T)) recs) = length recs)%nat.
Proof.
  revert res. induction recs as [|rec recs IH]; intros res.
  - simpl. by rewrite app_nil_r.
  - cbn [decode_m length].
    change (omap decode_one (rec :: recs))
      with (match decode_one (T:=T) rec with
            | Some y => y :: omap decode_one recs
            | None => omap decode_one recs
            end).
    set (rest := omap (decode_one (T:=T)) recs) in *. clearbody rest.
    unfold decode_one. destruct (Get rec "m") as [data [|]]; simpl.
    + destruct data as [|?|?|?|?|?|?|?|? props]; simpl;
        try (destruct (IH res) as (Hr & Htr & Hlen);
             destruct (decode_m recs res) as [r tr]; simpl in *; subst r;
             split; [done|]; split; [by constructor|]; lia).
      destruct (IH (res ++ [FromMap props])) as (Hr & Htr & Hlen).
      rewrite Hr, <- app_assoc. simpl. split; [done|]. split; [done|]. lia.
    + destruct (IH res) as (Hr & Htr & Hlen).
      destruct (decode_m recs res) as [r tr]; simpl in *; subst r.
      split; [by destruct data|]. split; [by constructor|]. destruct data; simpl; lia.
Qed.

(** X10: what a relation query returns.  With the store connected and
    answering with [recs], [getIndirectFromIDs] returns [nil] error and
    the entities decoded from the records that hold a node under [m],
    in the order of the records; every other record is skipped with one
    "Missing neo4j entry" warning, so warnings and entities together
    are as many as the records. *)
Theorem getIndirectFromIDs_decodes T `{Decodable T} (q : string) (ids : list string)
    (recs : list record) :
  connects store = true ->
  answer store q (ids_param ids) = Records recs ->
  let '(r, tr) := getIndirectFromIDs store T q ids in
  r = Ok (omap decode_one recs) /\
  (length (List.filter is_warning tr) + length (omap (decode_one (T:=T)) recs)
   = length recs)%nat.
Proof.
  unfold connects. intros Hc Hans.
  unfold getIndirectFromIDs, Neo4jClient, Session, BeginTransaction, Run, Collect.
  destruct (client_err store), (session_err store), (begin_err store); try done.
  simpl. rewrite Hans. simpl.
  destruct (decode_m_spec (T:=T) recs []) as (Hr & Htr & Hlen).
  destruct (decode_m recs []) as [r tr]. simpl in *. subst r. split; [done|].
  rewrite !List.filter_app. simpl.
  assert (List.filter is_warning tr = tr) as ->; [|by rewrite ?app_nil_r].
  clear Hlen. induction Htr as [|e tr He _ IH]; [done|]. simpl. by rewrite He, IH.
Qed.

Lemma filter_close_warnings (tr : list event) :
  Forall (fun e => is_warning e = true) tr -> List.filter is_close tr = [].
Proof.
  induction 1 as [|e tr He _ IH]; [done|]. simpl. rewrite IH.
  by destruct e.
Qed.

(** X9: the two query helpers close what they open on every path, a
    value, an error or a panic alike.  The close calls on the trace are
    exactly the ones owed: the transaction's and then the session's
    when a transaction was begun, the session's alone when only the
    session was opened, none when no session was; and once a session
    was opened, [session.Close()] is the last call made. *)
Theorem lookups_close_what_they_open :
  (forall T (C : Cypherable T) (filter : LookupFilter),
     let tr := (getGenericDirectNodeReport store T filter).2 in
     List.filter is_close tr = closes_owed store /\
     (opens_session store = true -> last tr = Some EvSessionClose)) /\
  (forall T (D : Decodable T) (q : string) (ids : list string),
     let tr := (getIndirectFromIDs store T q ids).2 in
     List.filter is_close tr = closes_owed store /\
     (opens_session store = true -> last tr = Some EvSessionClose)).
Proof.
  split.
  - intros T C filter.
    unfold getGenericDirectNodeReport, Neo4jClient, Session, BeginTransaction, Run,
      Collect, closes_owed, connects, opens_session.
    destruct (client_err store), (session_err store), (begin_err store);
      simpl; try done.
    destruct (answer store _ _) as [e|e|recs]; simpl; try done.
    pose proof (map_records_trace (T:=T) (InFieldFilter filter) recs []) as Htr.
    destruct (map_records (InFieldFilter filter) recs []) as [r tr]. simpl in *.
    destruct r; simpl; rewrite ?List.filter_app, ?(filter_close_warnings tr Htr);
      (split; [done|]); intros _; by rewrite ?last_cons, last_snoc.
  - intros T D q ids.
    unfold getIndirectFromIDs, Neo4jClient, Session, BeginTransaction, Run,
      Collect, closes_owed, connects, opens_session.
    destruct (client_err store), (session_err store), (begin_err store);
      simpl; try done.
    destruct (answer store _ _) as [e|e|recs]; simpl; try done.
    destruct (decode_m_spec (T:=T) recs []) as (Hr & Htr & _).
    destruct (decode_m recs []) as [r tr]. simpl in *. subst r. simpl.
    rewrite ?List.filter_app, ?(filter_close_warnings tr Htr).
    split; [done|]. intros _. by rewrite ?last_cons, last_snoc.
Qed.

End Lookups.

(** ** The page of the direct query *)

Section Pages.
Context (store : Store).

Lemma bind_Ok_inv {A B} (c : M A) (k : A -> M B) (b : B) :
  (bind c k).1 = Ok b -> exists a, c.1 = Ok a /\ (k a).1 = Ok b.
Proof.
  destruct c as [[a|e|msg] tr]; simpl; [|done..].
  destruct (k a) as [r tr'] eqn:Hk. simpl. intros ->. exists a. by rewrite Hk.
Qed.

Lemma getGenericDirectNodeReport_connected T `{Cypherable T} (filter : LookupFilter)
    (recs : list record) :
  connects store = true ->
  answer store (direct_query (NodeType (T:=T)) filter) (ids_param (NodeIds filter))
  = Records recs ->
  (getGenericDirectNodeReport store T filter).1
  = (map_records (InFieldFilter filter) recs []).1 /\
  List.filter is_warning (getGenericDirectNodeReport store T filter).2
  = (map_records (T:=T) (InFieldFilter filter) recs []).2.
Proof.
  unfold connects. intros Hc Hans.
  unfold getGenericDirectNodeReport, Neo4jClient, Session, BeginTransaction, Run, Collect.
  destruct (client_err store), (session_err store), (begin_err store); try done.
  simpl. rewrite Hans. simpl.
  pose proof (map_records_trace (T:=T) (InFieldFilter filter) recs []) as Htr.
  destruct (map_records (InFieldFilter filter) recs []) as [r tr]. simpl in *.
  assert (List.filter is_warning tr = tr) as Hf.
  { induction Htr as [|e tr He _ IH]; [done|]. simpl. by rewrite He, IH. }
  destruct r; simpl; rewrite ?List.filter_app, Hf; simpl; by rewrite ?app_nil_r.
Qed.

Lemma map_records_count {T} `{Decodable T} (fields : list string)
    (recs : list record) (res out : list T) :
  (map_records fields recs res).1 = Ok out ->
  (length out + length (map_records fields recs res).2 = length res + length recs)%nat /\
  (fields <> [] -> (map_records fields recs res).2 = []).
Proof.
  revert res. induction recs as [|rec recs IH]; intros res; simpl.
  - intros [= <-]. split; [lia | done].
  - destruct (record_map fields rec) as [[m|]|e|msg] eqn:Hrec; [| |done..].
    + intros Ho. destruct (IH _ Ho) as [Hlen Hq]. split; [|done].
      rewrite length_app in Hlen. simpl in Hlen. lia.
    + destruct (map_records fields recs res) as [r tr] eqn:Hrest. simpl.
      intros ->. destruct (IH res) as [Hlen Hq]; [by rewrite Hrest|].
      rewrite Hrest in *. simpl in *. split; [lia|].
      intros Hne. exfalso. unfold record_map, primary_map in Hrec.
      destruct fields as [|f fields]; [done|]. cbn [length Nat.eqb] in Hrec.
      destruct (positional (f :: fields) 0 (Values rec) ∅); [|done..].
      destruct (Get rec "e").1; simpl in Hrec; done.
Qed.

Lemma map_records_well_shaped {T} `{Decodable T} (fields : list string)
    (recs : list record) (res : list T) :
  fields <> [] -> Forall (well_shaped fields) recs ->
  exists out, (map_records fields recs res).1 = Ok out.
Proof.
  intros Hne Hall. revert res. induction Hall as [|rec recs [Hlen He] _ IH]; intros res.
  - by eexists.
  - cbn [map_records]. unfold record_map, primary_map.
    destruct fields as [|f fields]; [done|]. cbn [length Nat.eqb].
    destruct (positional_enough (f :: fields) 0 (Values rec) ∅) as [m ->]; [simpl in *; lia|].
    destruct (Get rec "e").1; try done; simpl; apply IH.
Qed.

(** X11: the direct query accounts for every record.  With the store
    connected and answering with [recs], a call that returns has
    decoded or skipped each record: entities and "Missing neo4j entry"
    warnings together are as many as the records.  With a non-empty
    [InFieldFilter] no record is ever skipped, so there is one entity
    per record; and the call does return when each record holds a value
    for every requested field and a node or nothing under [e]. *)
Theorem getGenericDirectNodeReport_accounts_for_every_record T `{Cypherable T}
    (filter : LookupFilter) (recs : list record) :
  connects store = true ->
  answer store (direct_query (NodeType (T:=T)) filter) (ids_param (NodeIds filter))
  = Records recs ->
  let '(r, tr) := getGenericDirectNodeReport store T filter in
  (forall res, r = Ok res ->
     (length res + length (List.filter is_warning tr) = length recs)%nat /\
     (InFieldFilter filter <> [] -> length res = length recs)) /\
  (InFieldFilter filter <> [] ->
   Forall (well_shaped (InFieldFilter filter)) recs -> exists res, r = Ok res).
Proof.
  intros Hc Hans.
  destruct (getGenericDirectNodeReport_connected T filter recs Hc Hans) as [Hr Htr].
  destruct (getGenericDirectNodeReport store T filter) as [r tr]. simpl in *. subst r.
  rewrite Htr. split.
  - intros res Hres. destruct (map_records_count _ _ _ _ Hres) as [Hlen Hq].
    simpl in Hlen. split; [done|]. intros Hne. rewrite (Hq Hne) in Hlen. simpl in Hlen. lia.
  - intros Hne Hall. by apply map_records_well_shaped.
Qed.

(** X12: a projection that leaves out [node_id] loses the ids.  With a
    non-empty [InFieldFilter] that does not name [node_id], every host
    the direct query returns has the empty [ID]; [GetHostsReport] still
    succeeds, returns hosts with the empty [ID], and every relation
    query it runs is keyed by the id list that holds the empty string
    alone. *)
Theorem projection_without_node_id_blanks_the_ids
    (filter : LookupFilter) (hosts : list Host) (tr1 : list event) :
  InFieldFilter filter <> [] ->
  "node_id" ∉ InFieldFilter filter ->
  getGenericDirectNodeReport store Host filter = (Ok hosts, tr1) ->
  Forall (fun h => Host_ID h = "") hosts /\
  exists hosts' tr2,
    GetHostsReport store filter = (Ok hosts', tr1 ++ tr2) /\
    Forall (fun h => Host_ID h = "") hosts' /\
    forall q p, EvRun q p ∈ tr2 -> p = ids_param [""].
Proof.
  intros Hne Hk Hbase.
  assert (Forall (fun h => Host_ID h = "") hosts) as Hids.
  { destruct (getGenericDirectNodeReport_maps store Host filter hosts tr1 Hbase)
      as (ms & -> & Hms).
    apply Forall_fmap. eapply Forall_impl; [exact Hms|].
    intros m (rec & Hrec). cbn. unfold id_of.
    by rewrite (record_map_no_node_id _ _ _ Hne Hk Hrec). }
  split; [done|].
  destruct (GetHostsReport_enrichment store filter hosts tr1 Hbase) as (tr2 & Hrep & Hruns).
  exists (host_after store filter <$> hosts), tr2. split; [done|]. split.
  - apply Forall_fmap. eapply Forall_impl; [exact Hids|]. by intros h.
  - intros q p Hin.
    apply (elem_of_host_runs filter hosts tr2 Hruns) in Hin as (name & h & _ & _ & Hh & ->).
    rewrite Forall_forall in Hids. by rewrite (Hids h Hh).
Qed.

(** What a relation query returns, when it returns. *)
Lemma getIndirectFromIDs_Ok T `{Decodable T} (q : string) (ids : list string)
    (v : list T) :
  (getIndirectFromIDs store T q ids).1 = Ok v ->
  exists recs, answer store q (ids_param ids) = Records recs /\ v = omap decode_one recs.
Proof.
  unfold getIndirectFromIDs, Neo4jClient, Session, BeginTransaction, Run, Collect.
  destruct (client_err store), (session_err store), (begin_err store); simpl; try done.
  destruct (answer store q (ids_param ids)) as [e|e|recs]; simpl; try done.
  destruct (decode_m_spec (T:=T) recs []) as (Hr & _ & _).
  destruct (decode_m recs []) as [r tr]. simpl in *. subst r. simpl.
  intros [= <-]. by exists recs.
Qed.

Lemma decode_one_no_m {T} `{Decodable T} (recs : list record) :
  Forall (fun rec => Keys rec = ["n"]) recs -> omap (decode_one (T:=T)) recs = [].
Proof.
  induction 1 as [|rec recs Hk _ IH]; [done|].
  cbn [omap list_omap]. unfold decode_one at 1, Get. rewrite Hk. simpl.
  destruct (Values rec); simpl; exact IH.
Qed.

Lemma fetched_no_m T `{Decodable T} (q : string) (id : string) (v : list T) :
  (forall p recs, answer store q p = Records recs ->
                  Forall (fun rec => Keys rec = ["n"]) recs) ->
  fetched store T q id = Some v -> v = [].
Proof.
  intros Hkeys. unfold fetched.
  destruct (getIndirectFromIDs store T q [id]).1 as [v'| |] eqn:Hget; [|done..].
  intros [= <-]. apply getIndirectFromIDs_Ok in Hget as (recs & Hans & ->).
  by apply decode_one_no_m, (Hkeys _ _ Hans).
Qed.

Lemma GetContainerImagesReport_enrichment (filter : LookupFilter)
    (page : list ContainerImage) (tr1 : list event) :
  getGenericDirectNodeReport store ContainerImage filter = (Ok page, tr1) ->
  (GetContainerImagesReport store filter).1 = Ok (image_after store filter <$> page).
Proof.
  intros Hbase. unfold GetContainerImagesReport.
  rewrite (report_after_page _ _ page tr1 Hbase). cbn [fst].
  unfold getContainerImageContainers.
  erewrite forRange_total; [reflexivity|].
  intros i. rewrite (enrich_relation store Container _ _ ContainerImage_ID).
  unfold image_after, wants. reflexivity.
Qed.

Lemma GetKubernetesClustersReport_enrichment (filter : LookupFilter)
    (page : list KubernetesCluster) (tr1 : list event) :
  getGenericDirectNodeReport store KubernetesCluster filter = (Ok page, tr1) ->
  (GetKubernetesClustersReport store filter).1 = Ok (cluster_after store filter <$> page).
Proof.
  intros Hbase. unfold GetKubernetesClustersReport.
  rewrite (report_after_page _ _ page tr1 Hbase). cbn [fst].
  unfold getClusterHosts.
  erewrite forRange_total; [reflexivity|].
  intros i. rewrite (enrich_relation store Host _ _ KubernetesCluster_ID).
  unfold cluster_after, wants. reflexivity.
Qed.

(** X13: the relations fetched by [getContainerImageContainers] and
    [getClusterHosts] are lost.  Both statements end in [RETURN n], and
    [getIndirectFromIDs] reads the column [m].  When the store names
    the columns of its records after the [RETURN] clause, every
    container image of [GetContainerImagesReport] comes back with
    [Containers] unset or empty, and every cluster of
    [GetKubernetesClustersReport] with [Hosts] unset or empty. *)
Theorem relations_returned_as_n_are_lost (filter : LookupFilter) :
  (forall q p recs,
     q = container_image_containers_query \/ q = cluster_hosts_query ->
     answer store q p = Records recs ->
     Forall (fun rec => Keys rec = ["n"]) recs) ->
  (forall images, (GetContainerImagesReport store filter).1 = Ok images ->
     Forall (fun i => ContainerImage_Containers i = None \/
                      ContainerImage_Containers i = Some []) images) /\
  (forall clusters, (GetKubernetesClustersReport store filter).1 = Ok clusters ->
     Forall (fun c => KubernetesCluster_Hosts c = None \/
                      KubernetesCluster_Hosts c = Some []) clusters).
Proof.
  intros Hkeys. split.
  - intros images Hrep.
    destruct (getGenericDirectNodeReport store ContainerImage filter) as [r tr1] eqn:Hbase.
    assert (exists page, r = Ok page) as [page ->].
    { unfold GetContainerImagesReport in Hrep. rewrite Hbase in Hrep.
      apply bind_Ok_inv in Hrep as (page & Hp & _). by exists page. }
    rewrite (GetContainerImagesReport_enrichment filter page tr1 Hbase) in Hrep.
    injection Hrep as <-.
    destruct (getGenericDirectNodeReport_Ok store ContainerImage filter page tr1 Hbase)
      as (_ & ms & ->).
    apply Forall_fmap, Forall_fmap, Forall_forall. intros m _. cbn.
    unfold image_after. destruct (wants filter "image"); [|by left].
    destruct (fetched store Container _ _) as [v|] eqn:Hf; [|by left].
    right. cbn. f_equal. eapply fetched_no_m; [|exact Hf].
    intros p recs. apply Hkeys. by left.
  - intros clusters Hrep.
    destruct (getGenericDirectNodeReport store KubernetesCluster filter) as [r tr1] eqn:Hbase.
    assert (exists page, r = Ok page) as [page ->].
    { unfold GetKubernetesClustersReport in Hrep. rewrite Hbase in Hrep.
      apply bind_Ok_inv in Hrep as (page & Hp & _). by exists page. }
    rewrite (GetKubernetesClustersReport_enrichment filter page tr1 Hbase) in Hrep.
    injection Hrep as <-.
    destruct (getGenericDirectNodeReport_Ok store KubernetesCluster filter page tr1 Hbase)
      as (_ & ms & ->).
    apply Forall_fmap, Forall_fmap, Forall_forall. intros m _. cbn.
    unfold cluster_after. destruct (wants filter "hosts"); [|by left].
    destruct (fetched store Host _ _) as [v|] eqn:Hf; [|by left].
    right. cbn. f_equal. eapply fetched_no_m; [|exact Hf].
    intros p recs. apply Hkeys. by right.
Qed.

End Pages.

(** ** The loops over the page *)

Section Reports.
Context (store : Store).

Lemma container_step_total (filter : LookupFilter) (c : Container) :
  connects store = true ->
  exists t,
    bind (enrich (wants filter "processes") (getContainerProcesses store)
            set_Container_Processes c)
         (fun c => enrich (wants filter "image") (getContainerContainerImages store)
                     (fun images c =>
                        match images with
                        | image :: _ => set_Container_ContainerImage image c
                        | [] => c
                        end) c)
    = (Ok (container_after store filter c), t) /\
    List.filter is_run t = container_runs filter c.
Proof.
  intros Hc. unfold getContainerProcesses, getContainerContainerImages.
  rewrite (enrich_relation store Process _ container_processes_query Container_ID).
  cbn [bind].
  set (c1 := if wants filter "processes" then _ else c).
  assert (Container_ID c1 = Container_ID c) as Hid.
  { unfold c1. destruct (wants filter "processes"); [|done].
    by destruct (fetched store Process _ _), c. }
  rewrite (enrich_relation store ContainerImage _ container_container_images_query
             Container_ID).
  rewrite Hid. eexists. split.
  - f_equal. unfold container_after, c1.
    destruct (wants filter "processes"), (wants filter "image");
      destruct c as [id fields procs image]; cbn;
      repeat (match goal with
              | |- context [fetched ?s ?T ?q ?i] => destruct (fetched s T q i) as [[|? ?]|]
              end; cbn); reflexivity.
  - rewrite List.filter_app, !relation_runs by done. unfold container_runs.
    by destruct (wants filter "processes"), (wants filter "image").
Qed.

(** X14: what [GetContainersReport] makes of the page of its direct
    query.  Each container keeps its id and fields; [Processes] is what
    the process query brought back when processes are asked for and the
    query answered; [ContainerImage] is the first image the image query
    brought back when the image is asked for, and is left as it was
    when the query failed or found nothing.  The report succeeds
    whatever the relation queries do, and the statements it runs are,
    for each container in turn, the queries asked for, keyed by that
    container's id. *)
Theorem GetContainersReport_enriches_each_container (filter : LookupFilter)
    (page : list Container) (tr1 : list event) :
  getGenericDirectNodeReport store Container filter = (Ok page, tr1) ->
  exists tr2,
    GetContainersReport store filter
    = (Ok (container_after store filter <$> page), tr1 ++ tr2) /\
    List.filter is_run tr2 = page ≫= container_runs filter.
Proof.
  intros Hbase.
  destruct (getGenericDirectNodeReport_Ok store Container filter page tr1 Hbase)
    as (Hc & _).
  assert (exists tr2,
            forRange (fun c =>
                bind (enrich (wants filter "processes") (getContainerProcesses store)
                        set_Container_Processes c)
                     (fun c => enrich (wants filter "image")
                                 (getContainerContainerImages store)
                                 (fun images c =>
                                    match images with
                                    | image :: _ => set_Container_ContainerImage image c
                                    | [] => c
                                    end) c)) page
            = (Ok (container_after store filter <$> page), tr2) /\
            List.filter is_run tr2 = page ≫= container_runs filter)
    as (tr2 & Hloop & Hruns).
  { clear Hbase. induction page as [|c page IH].
    - by exists [].
    - destruct IH as (tr2 & Hloop & Hruns).
      destruct (container_step_total filter c Hc) as (t & Ht & Htruns).
      exists (t ++ tr2). split.
      + cbn [forRange]. rewrite Ht. cbn [bind]. rewrite Hloop. cbn.
        by rewrite app_nil_r.
      + by rewrite List.filter_app, Htruns, Hruns, bind_cons. }
  exists tr2. split; [|done].
  unfold GetContainersReport. rewrite Hbase. cbn [bind].
  unfold wants in Hloop.
  destruct (length (InFieldFilter filter) =? 0)%nat; cbv beta iota;
    by rewrite Hloop.
Qed.

Lemma account_step_Ok (a : RegistryAccount) (v : list ContainerImage) :
  connects store = true ->
  fetched store ContainerImage registry_images_query (RegistryAccount_ID a) = Some v ->
  exists t, account_step store a = (Ok (account_after store a), t) /\
            List.filter is_run t = [images_run a].
Proof.
  intros Hc Hf. unfold account_step, account_after, getRegistryImages. rewrite Hf.
  unfold fetched in Hf.
  destruct (getIndirectFromIDs_total store ContainerImage registry_images_query
              [RegistryAccount_ID a]) as [_ Hruns].
  rewrite Hc in Hruns.
  destruct (getIndirectFromIDs store ContainerImage registry_images_query
              [RegistryAccount_ID a]) as [[v'| |] t]; simpl in *; [|done..].
  injection Hf as ->. exists (t ++ []). split; [done|]. by rewrite app_nil_r.
Qed.

Lemma account_step_Err (a : RegistryAccount) (e : error) :
  connects store = true ->
  (getRegistryImages store a).1 = Err e ->
  exists t, account_step store a = (Err e, t) /\
            List.filter is_run t = [images_run a].
Proof.
  intros Hc He. unfold account_step. unfold getRegistryImages in *.
  destruct (getIndirectFromIDs_total store ContainerImage registry_images_query
              [RegistryAccount_ID a]) as [_ Hruns].
  rewrite Hc in Hruns.
  destruct (getIndirectFromIDs store ContainerImage registry_images_query
              [RegistryAccount_ID a]) as [[v'| |] t]; simpl in *; [done| |done].
  injection He as ->. by exists t.
Qed.

Lemma account_loop_Ok (page : list RegistryAccount) :
  connects store = true ->
  (forall a, a ∈ page ->
     is_Some (fetched store ContainerImage registry_images_query (RegistryAccount_ID a))) ->
  exists tr2,
    forRange (account_step store) page = (Ok (account_after store <$> page), tr2) /\
    List.filter is_run tr2 = images_run <$> page.
Proof.
  intros Hc. induction page as [|a page IH]; intros Hall.
  - by exists [].
  - destruct IH as (tr2 & Hloop & Hruns).
    { intros b Hb. apply Hall. by apply list_elem_of_further. }
    destruct (Hall a) as [v Hv]; [apply list_elem_of_here|].
    destruct (account_step_Ok a v Hc Hv) as (t & Ht & Htruns).
    exists (t ++ tr2). split.
    + cbn [forRange]. rewrite Ht. cbn [bind]. rewrite Hloop. cbn. by rewrite app_nil_r.
    + by rewrite List.filter_app, Htruns, Hruns.
Qed.

Lemma account_loop_Err (pre post : list RegistryAccount) (a : RegistryAccount)
    (e : error) :
  connects store = true ->
  (forall b, b ∈ pre ->
     is_Some (fetched store ContainerImage registry_images_query (RegistryAccount_ID b))) ->
  (getRegistryImages store a).1 = Err e ->
  exists tr2,
    forRange (account_step store) (pre ++ a :: post) = (Err e, tr2) /\
    List.filter is_run tr2 = images_run <$> (pre ++ [a]).
Proof.
  intros Hc Hpre He. induction pre as [|b pre IH].
  - destruct (account_step_Err a e Hc He) as (t & Ht & Htruns).
    exists t. split; [|done]. cbn [app forRange]. by rewrite Ht.
  - destruct IH as (tr2 & Hloop & Hruns).
    { intros b' Hb. apply Hpre. by apply list_elem_of_further. }
    destruct (Hpre b) as [v Hv]; [apply list_elem_of_here|].
    destruct (account_step_Ok b v Hc Hv) as (t & Ht & Htruns).
    exists (t ++ tr2). split.
    + cbn [app forRange]. rewrite Ht. cbn [bind].
      change (forRange (account_step store) (pre ++ a :: post))
        with (forRange (account_step store) (pre ++ a :: post)).
      rewrite Hloop. done.
    + by rewrite List.filter_app, Htruns, Hruns.
Qed.

(** X15: [GetRegistryAccountReport] fetches the images of every
    account whatever [InFieldFilter] says, and stops at the first
    failure.  When every image query answers, each account comes back
    with its images set and one statement was run per account, in
    order.  When the query of one account fails, the report returns
    that error, and statements were run for the accounts before it and
    for that account only. *)
Theorem GetRegistryAccountReport_stops_at_first_failure (filter : LookupFilter)
    (page : list RegistryAccount) (tr1 : list event) :
  getGenericDirectNodeReport store RegistryAccount filter = (Ok page, tr1) ->
  ((forall a, a ∈ page ->
      is_Some (fetched store ContainerImage registry_images_query
                 (RegistryAccount_ID a))) ->
   exists tr2,
     GetRegistryAccountReport store filter
     = (Ok (account_after store <$> page), tr1 ++ tr2) /\
     List.filter is_run tr2 = images_run <$> page) /\
  (forall pre a post e,
     page = pre ++ a :: post ->
     (forall b, b ∈ pre ->
        is_Some (fetched store ContainerImage registry_images_query
                   (RegistryAccount_ID b))) ->
     (getRegistryImages store a).1 = Err e ->
     exists tr2,
       GetRegistryAccountReport store filter = (Err e, tr1 ++ tr2) /\
       List.filter is_run tr2 = images_run <$> (pre ++ [a])).
Proof.
  intros Hbase.
  destruct (getGenericDirectNodeReport_Ok store RegistryAccount filter page tr1 Hbase)
    as (Hc & _).
  unfold GetRegistryAccountReport. rewrite Hbase. cbn [bind].
  change (forRange _ page) with (forRange (account_step store) page).
  split.
  - intros Hall. destruct (account_loop_Ok page Hc Hall) as (tr2 & -> & Hruns).
    by exists tr2.
  - intros pre a post e -> Hpre He.
    destruct (account_loop_Err pre post a e Hc Hpre He) as (tr2 & -> & Hruns).
    by exists tr2.
Qed.

(** X16: with an empty [InFieldFilter], [GetHostsReport] fetches all
    four relations of every host: each host comes back with
    [Containers], [Processes], [Pods] and [ContainerImages] holding what
    their queries brought back for that host's id (unset where the
    query failed), and the statements run are the four relation
    queries for each host in turn. *)
Theorem GetHostsReport_without_fields_fetches_all (filter : LookupFilter)
    (hosts : list Host) (tr1 : list event) :
  InFieldFilter filter = [] ->
  getGenericDirectNodeReport store Host filter = (Ok hosts, tr1) ->
  exists tr2,
    GetHostsReport store filter
    = (Ok ((fun h =>
              mkHost (Host_ID h) (Host_fields h)
                (fetched store Container host_containers_query (Host_ID h))
                (fetched store Process host_processes_query (Host_ID h))
                (fetched store Pod host_pods_query (Host_ID h))
                (fetched store ContainerImage host_container_images_query (Host_ID h)))
           <$> hosts),
       tr1 ++ tr2) /\
    List.filter is_run tr2 = hosts ≫= all_host_runs.
Proof.
  intros Hnone Hbase.
  destruct (GetHostsReport_enrichment store filter hosts tr1 Hbase) as (tr2 & Hrep & Hruns).
  exists tr2. rewrite Hrep, Hruns.
  unfold host_after, host_runs, host_relation_queries, wants. rewrite Hnone. done.
Qed.

End Reports.

(** ** The statements above, at the sample stores *)

Lemma getIndirectFromIDs_decodes_witness :
  let '(r, tr) :=
    getIndirectFromIDs one_process_one_stray Process host_processes_query ["h1"] in
  r = Ok [ {| Process_ID := "p1"; Process_fields := {[ "node_id" := VStr "p1" ]} |} ] /\
  (length (List.filter is_warning tr) + 1 = 2)%nat.
Proof.
  assert (connects one_process_one_stray = true) as Hc by reflexivity.
  assert (answer one_process_one_stray host_processes_query (ids_param ["h1"])
          = Records [ related_record "Process" "p1";
                      {| Keys := ["x"]; Values := [VInt 1] |} ]) as Hans
    by (vm_compute; reflexivity).
  exact (getIndirectFromIDs_decodes one_process_one_stray Process host_processes_query
           ["h1"] _ Hc Hans).
Defined.

Lemma getGenericDirectNodeReport_accounts_for_every_record_witness :
  let '(r, tr) := getGenericDirectNodeReport one_host_projected Host only_processes in
  (forall res, r = Ok res ->
     (length res + length (List.filter is_warning tr) = 1)%nat /\
     (["processes"] <> [] -> length res = 1%nat)) /\
  (["processes"] <> [] ->
   Forall (well_shaped ["processes"])
     [ {| Keys := ["n.processes"; "e"]; Values := [VNil; VNil] |} ] ->
   exists res, r = Ok res).
Proof.
  assert (connects one_host_projected = true) as Hc by reflexivity.
  assert (answer one_host_projected (direct_query "Node" only_processes)
            (ids_param ["h1"])
          = Records [ {| Keys := ["n.processes"; "e"]; Values := [VNil; VNil] |} ])
    as Hans by (vm_compute; reflexivity).
  exact (getGenericDirectNodeReport_accounts_for_every_record one_host_projected Host
           only_processes _ Hc Hans).
Defined.

Lemma projection_without_node_id_blanks_the_ids_witness :
  Forall (fun h => Host_ID h = "")
    [mkHost "" {[ "processes" := VNil ]} None None None None] /\
  exists hosts' tr2,
    GetHostsReport one_host_projected only_processes
    = (Ok hosts',
       (getGenericDirectNodeReport one_host_projected Host only_processes).2 ++ tr2) /\
    Forall (fun h => Host_ID h = "") hosts' /\
    forall q p, EvRun q p ∈ tr2 -> p = ids_param [""].
Proof.
  apply (projection_without_node_id_blanks_the_ids one_host_projected only_processes
           [mkHost "" {[ "processes" := VNil ]} None None None None]
           (getGenericDirectNodeReport one_host_projected Host only_processes).2).
  - discriminate.
  - apply not_elem_of_cons. split; [discriminate | apply not_elem_of_nil].
  - vm_compute. reflexivity.
Defined.

Lemma relations_returned_as_n_are_lost_witness :
  Forall (fun i => ContainerImage_Containers i = None \/
                   ContainerImage_Containers i = Some [])
    [mkContainerImage "img1" {[ "node_id" := VStr "img1" ]} (Some [])].
Proof.
  apply (relations_returned_as_n_are_lost images_as_n everything).
  - intros q p recs [-> | ->] Hans; vm_compute in Hans; injection Hans as <-;
      repeat constructor.
  - vm_compute. reflexivity.
Defined.

Lemma GetContainersReport_enriches_each_container_witness :
  exists tr2,
    GetContainersReport one_container everything
    = (Ok [ mkContainer "c1" {[ "node_id" := VStr "c1" ]} (Some [])
              (mkContainerImage "img1" {[ "node_id" := VStr "img1" ]} None) ],
       (getGenericDirectNodeReport one_container Container everything).2 ++ tr2) /\
    List.filter is_run tr2
    = [ EvRun container_processes_query (ids_param ["c1"]);
        EvRun container_container_images_query (ids_param ["c1"]) ].
Proof.
  assert (getGenericDirectNodeReport one_container Container everything
          = (Ok [ mkContainer "c1" {[ "node_id" := VStr "c1" ]} None
                    (mkContainerImage "" ∅ None) ],
             (getGenericDirectNodeReport one_container Container everything).2))
    as Hbase by (vm_compute; reflexivity).
  exact (GetContainersReport_enriches_each_container one_container everything _ _ Hbase).
Defined.

Lemma GetRegistryAccountReport_stops_at_first_failure_witness :
  exists tr2,
    GetRegistryAccountReport registry_images_down everything
    = (Err "neo4j: query failed",
       (getGenericDirectNodeReport registry_images_down RegistryAccount everything).2
       ++ tr2) /\
    List.filter is_run tr2 = [ EvRun registry_images_query (ids_param ["reg1"]) ].
Proof.
  destruct (GetRegistryAccountReport_stops_at_first_failure registry_images_down
              everything
              [mkRegistryAccount "reg1" {[ "node_id" := VStr "reg1" ]} None]
              (getGenericDirectNodeReport registry_images_down RegistryAccount
                 everything).2) as [_ Hfail].
  - vm_compute. reflexivity.
  - apply (Hfail [] (mkRegistryAccount "reg1" {[ "node_id" := VStr "reg1" ]} None) []
             "neo4j: query failed").
    + reflexivity.
    + intros b Hb. inversion Hb.
    + vm_compute. reflexivity.
Defined.

Lemma GetHostsReport_without_fields_fetches_all_witness :
  exists tr2,
    GetHostsReport two_hosts everything
    = (Ok [ mkHost "h1" {[ "node_id" := VStr "h1" ]}
              (Some []) (Some []) (Some []) (Some []);
            mkHost "h2" {[ "node_id" := VStr "h2" ]}
              (Some []) (Some []) (Some []) (Some []) ],
       (getGenericDirectNodeReport two_hosts Host everything).2 ++ tr2) /\
    List.filter is_run tr2
    = all_host_runs (mkHost "h1" {[ "node_id" := VStr "h1" ]} None None None None) ++
      all_host_runs (mkHost "h2" {[ "node_id" := VStr "h2" ]} None None None None).
Proof.
  assert (getGenericDirectNodeReport two_hosts Host everything
          = (Ok [ mkHost "h1" {[ "node_id" := VStr "h1" ]} None None None None;
                  mkHost "h2" {[ "node_id" := VStr "h2" ]} None None None None ],
             (getGenericDirectNodeReport two_hosts Host everything).2))
    as Hbase by (vm_compute; reflexivity).
  exact (GetHostsReport_without_fields_fetches_all two_hosts everything _ _
           eq_refl Hbase).
Defined.

End LookupProperties.
